(** * databricks-apps-scheduler: the schedule resolver and the reconciliation
    driver of [src/databricks_apps_scheduler/cli.py], embedded in Rocq.

    Python [str] values are modelled as [string] restricted to ASCII text (one
    [ascii] per character), Python [int] as [Z], [set] as [gset], [dict] as
    [gmap].  Exceptions are explicit results: those that a caller handles
    are values of [res] or [option], those that nothing handles are
    [Uncaught] outcomes, which end a run of [main] with a traceback.
    Logging is not modelled. *)

From Stdlib Require Import ZArith Lia Ascii String.
From stdpp Require Import base tactics option list gmap strings sorting.

Local Open Scope string_scope.
Local Open Scope Z_scope.

(** ** The [str] methods the program calls *)

Module Str.

(** [c.isspace()] on ASCII: TAB, LF, VT, FF, CR, FS, GS, RS, US, SPACE. *)
Definition isspace (c : ascii) : bool :=
  let n := N_of_ascii c in
  ((9 <=? n) && (n <=? 13) || (28 <=? n) && (n <=? 32))%N.

Fixpoint lstrip (s : string) : string :=
  match s with
  | String c s' => if isspace c then lstrip s' else s
  | EmptyString => EmptyString
  end.

Fixpoint rstrip (s : string) : string :=
  match s with
  | String c s' =>
      match rstrip s' with
      | EmptyString => if isspace c then EmptyString else String c EmptyString
      | r => String c r
      end
  | EmptyString => EmptyString
  end.

(** [s.strip()] *)
Definition strip (s : string) : string := rstrip (lstrip s).

Definition lower_char (c : ascii) : ascii :=
  let n := N_of_ascii c in
  if ((65 <=? n) && (n <=? 90))%N then ascii_of_N (n + 32) else c.

Definition upper_char (c : ascii) : ascii :=
  let n := N_of_ascii c in
  if ((97 <=? n) && (n <=? 122))%N then ascii_of_N (n - 32) else c.

Fixpoint map_chars (f : ascii → ascii) (s : string) : string :=
  match s with
  | String c s' => String (f c) (map_chars f s')
  | EmptyString => EmptyString
  end.

(** [s.lower()] and [s.upper()] *)
Definition lower : string → string := map_chars lower_char.
Definition upper : string → string := map_chars upper_char.

(** [s.split(sep)] for a one-character separator: never the empty list. *)
Fixpoint split (sep : ascii) (s : string) : list string :=
  match s with
  | EmptyString => [EmptyString]
  | String c s' =>
      if Ascii.eqb c sep then EmptyString :: split sep s'
      else match split sep s' with
           | h :: t => String c h :: t
           | [] => [String c EmptyString]
           end
  end.

(** [sep.join(parts)] *)
Fixpoint join (sep : string) (parts : list string) : string :=
  match parts with
  | [] => EmptyString
  | [p] => p
  | p :: rest => p ++ sep ++ join sep rest
  end.

(** [s.startswith(p)], returning the rest of [s] after [p]. *)
Fixpoint strip_prefix (p s : string) : option string :=
  match p, s with
  | EmptyString, _ => Some s
  | String a p', String b s' =>
      if Ascii.eqb a b then strip_prefix p' s' else None
  | String _ _, EmptyString => None
  end.

(** [s.replace(old, new)] for a non-empty [old]: left to right, without
    overlap.  The recursion descends on [s] one character at a time and
    [skip] counts the characters of a match still to be dropped. *)
Fixpoint replace_from (old new : string) (skip : nat) (s : string) : string :=
  match s with
  | EmptyString => EmptyString
  | String c s' =>
      match skip with
      | S k => replace_from old new k s'
      | O =>
          match strip_prefix old s with
          | Some _ => new ++ replace_from old new (Nat.pred (String.length old)) s'
          | None => String c (replace_from old new O s')
          end
      end
  end.

Definition replace (old new s : string) : string := replace_from old new O s.

(** [s.endswith("Z")] together with [s[:-1]]. *)
Fixpoint chop_Z (s : string) : option string :=
  match s with
  | EmptyString => None
  | String c EmptyString => if Ascii.eqb c "Z" then Some EmptyString else None
  | String c s' => String c <$> chop_Z s'
  end.

Definition is_digit (c : ascii) : bool :=
  let n := N_of_ascii c in ((48 <=? n) && (n <=? 57))%N.

Definition digit_value (c : ascii) : Z := Z.of_N (N_of_ascii c) - 48.

(** Digits of a decimal literal, single underscores allowed between digits
    ([prev] tells whether the previous character was a digit). *)
Fixpoint digits (acc : Z) (prev : bool) (s : string) : option Z :=
  match s with
  | EmptyString => if prev then Some acc else None
  | String c s' =>
      if is_digit c then digits (10 * acc + digit_value c) true s'
      else if Ascii.eqb c "_" then (if prev then digits acc false s' else None)
      else None
  end.

(** [int(s)] in base 10 on ASCII text; [None] is [ValueError].  (CPython's
    limit on the length of a decimal literal is not modelled.) *)
Definition int (s : string) : option Z :=
  match strip s with
  | String "+" s' => digits 0 false s'
  | String "-" s' => Z.opp <$> digits 0 false s'
  | s' => digits 0 false s'
  end.

End Str.

(** ** Results of fallible calls *)

(** A Python call either returns or raises [ValueError(msg)]. *)
Inductive res (A : Type) : Type :=
  | Ok (a : A)
  | ValueError (msg : string).
Arguments Ok {A} a.
Arguments ValueError {A} msg.

(** The exceptions that no handler of the program catches: the
    [OverflowError] of [datetime.astimezone] when the converted instant
    leaves the years 1..9999, and the plain [ValueError] that [ZoneInfo]
    raises for a key that is not a normalized relative path (such as the
    empty key, [../x] or [/etc/passwd]). *)
Inductive Exn : Type := OverflowError | InvalidZoneKey.

(** How a call ends for the code around it: [Normally r], in one of the ways
    that its caller handles ([r] tells which: a value, or an exception of
    the class the [except] clause names); or [Uncaught e], raising [e], which
    passes every handler up to the top of the process. *)
Inductive outcome (A : Type) : Type :=
  | Normally (a : A)
  | Uncaught (e : Exn).
Arguments Normally {A} a.
Arguments Uncaught {A} e.

(** A result that is written without mention of an uncaught exception is
    the outcome that ended normally with it. *)
Definition outcome_of_res {A} (r : res A) : outcome (res A) := Normally r.
Coercion outcome_of_res : res >-> outcome.

Definition outcome_of_option {A} (o : option A) : outcome (option A) :=
  Normally o.
Coercion outcome_of_option : option >-> outcome.

Definition outcome_of_sum {A B} (s : A + B) : outcome (A + B) := Normally s.
Coercion outcome_of_sum : sum >-> outcome.

(** ** Constants of the module *)

Definition RUNNING_STATES : gset string := {["ACTIVE"; "STARTING"]}.
Definition STOPPED_STATES : gset string := {["STOPPED"; "STOPPING"]}.

(** [INVALID_WEEKDAY_ERROR.format(token=token)] *)
Definition INVALID_WEEKDAY_ERROR (token : string) : string :=
  "Invalid weekday '" ++ token ++ "'. Expected integers in the range 0..6.".

(** ** Schedule resolver: parsing *)

(** The truth value of a [str]. *)
Definition nonempty (s : string) : bool :=
  match s with EmptyString => false | String _ _ => true end.

(** [_csv_tokens]: the stripped parts of [raw.split(",")] that are truthy. *)
Definition _csv_tokens (raw : string) : list string :=
  List.filter nonempty (List.map Str.strip (Str.split "," raw)).

(** One iteration of the loop of [parse_app_names] on [(seen, names)]. *)
Definition parse_app_names_step (st : gset string * list string)
    (candidate : string) : gset string * list string :=
  let '(seen, names) := st in
  if decide (candidate ∈ seen) then st
  else ({[candidate]} ∪ seen, (names ++ [candidate])%list).

Definition parse_app_names (raw : string) : list string :=
  snd (foldl parse_app_names_step (∅, []) (_csv_tokens raw)).

(** [set(range(7))] *)
Definition all_days : gset Z := list_to_set [0; 1; 2; 3; 4; 5; 6]%Z.

(** The loop of [parse_active_days] over the tokens, [active_days] being the
    set built so far. *)
Fixpoint parse_active_days_loop (active_days : gset Z) (tokens : list string)
    : res (gset Z) :=
  match tokens with
  | [] => Ok active_days
  | token :: rest =>
      match Str.int token with
      | None => ValueError (INVALID_WEEKDAY_ERROR token)
      | Some day =>
          if ((day <? 0) || (day >? 6))%Z
          then ValueError (INVALID_WEEKDAY_ERROR token)
          else parse_active_days_loop ({[day]} ∪ active_days) rest
      end
  end.

Definition parse_active_days (raw : string) : res (gset Z) :=
  let key := Str.lower (Str.strip raw) in
  if bool_decide (key = "") || bool_decide (key = "all") then Ok all_days
  else
    match parse_active_days_loop ∅ (_csv_tokens raw) with
    | Ok active_days =>
        if bool_decide (active_days = ∅)
        then ValueError "At least one active day must be configured."
        else Ok active_days
    | ValueError msg => ValueError msg
    end.

(** ** Timezone-aware instants

    The program reads a [datetime] only through [hour], [weekday()],
    [tzinfo], [replace(tzinfo=...)] and [astimezone(...)].  A [datetime] is
    modelled by its wall clock, in microseconds since 1970-01-01T00:00:00 of
    the proleptic Gregorian calendar, and its [tzinfo]; the calendar fields
    are projections of the wall clock. *)

Definition US_PER_SECOND : Z := 1000000.
Definition US_PER_HOUR : Z := 3600 * US_PER_SECOND.
Definition US_PER_DAY : Z := 24 * US_PER_HOUR.

(** The interface of Python's [tzinfo] class: [utcoffset] maps a wall clock
    in this zone to its offset from UTC, [fromutc] maps a UTC wall clock to
    the wall clock of this zone (all in microseconds). *)
Record TzInfo : Type := {
  utcoffset : Z → Z;
  fromutc : Z → Z
}.

Record datetime : Type := {
  wall : Z;
  tzinfo : option TzInfo
}.

(** [d.hour] *)
Definition hour (d : datetime) : Z := (wall d / US_PER_HOUR) mod 24.

(** [d.weekday()], Monday = 0; 1970-01-01 was a Thursday. *)
Definition weekday (d : datetime) : Z := (wall d / US_PER_DAY + 3) mod 7.

(** [d.replace(tzinfo=tz)]: the clock fields are kept. *)
Definition replace_tzinfo (d : datetime) (tz : TzInfo) : datetime :=
  {| wall := wall d; tzinfo := Some tz |}.

(** The wall clocks that a [datetime] can hold: from
    0001-01-01T00:00:00 to 9999-12-31T23:59:59.999999. *)
Definition MIN_WALL : Z := -62135596800 * US_PER_SECOND.
Definition MAX_WALL : Z := 253402300799 * US_PER_SECOND + 999999.

Definition in_range (w : Z) : bool := (MIN_WALL <=? w) && (w <=? MAX_WALL).

(** [d.astimezone(tz)] for an aware [d] whose zone is [src]:
    [utc = (d - offset).replace(tzinfo=tz)], then [tz.fromutc(utc)].  Either
    step raises [OverflowError] ([None]) when its result is not a wall clock
    that a [datetime] can hold.  (The shortcut [if tz is mytz: return self]
    is not modelled: the source is the [timezone] that [fromisoformat]
    built, which can be the target object only as the shared
    [timezone.utc], where both steps keep the value; in [main] the target
    is a [ZoneInfo], never the source object.) *)
Definition astimezone (src : TzInfo) (d : datetime) (tz : TzInfo)
    : option datetime :=
  let utc := wall d - utcoffset src (wall d) in
  if in_range utc then
    let local := fromutc tz utc in
    if in_range local then Some {| wall := local; tzinfo := Some tz |}
    else None
  else None.

(** The instant on the UTC time line that an aware datetime denotes. *)
Definition utc_instant (src : TzInfo) (d : datetime) : Z :=
  wall d - utcoffset src (wall d).

(** [datetime.now(tz)] when the clock reads [clock] (UTC microseconds). *)
Definition datetime_now (clock : Z) (tz : TzInfo) : datetime :=
  {| wall := fromutc tz clock; tzinfo := Some tz |}.

(** [datetime.timezone(timedelta(microseconds=off))] *)
Definition timezone (off : Z) : TzInfo :=
  {| utcoffset := λ _, off; fromutc := λ u, u + off |}.

(** ** Schedule resolver: the decision *)

Inductive Action : Type := start | stop.

#[global] Instance Action_eq_dec : EqDecision Action.
Proof. solve_decision. Defined.

Definition resolve_action (now_local : datetime) (start_hour end_hour : Z)
    (active_days : gset Z) : Action :=
  if decide (weekday now_local ∉ active_days) then stop
  else if start_hour =? end_hour then start
  else
    let within_schedule :=
      if start_hour <? end_hour
      then (start_hour <=? hour now_local) && (hour now_local <? end_hour)
      else (* Supports overnight windows such as 22 -> 06. *)
        (hour now_local >=? start_hour) || (hour now_local <? end_hour) in
    if within_schedule then start else stop.

(** ** Schedule resolver: the evaluation instant *)

Definition invalid_now_error (now_raw : string) : string :=
  ("Invalid --now value '" ++ now_raw
    ++ "'. Use ISO-8601, e.g. 2026-02-08T15:30:00+01:00.")%string.

(** The text handed to [datetime.fromisoformat]: stripped, a final [Z]
    replaced by [+00:00]. *)
Definition normalize_now (now_raw : string) : string :=
  let normalized := Str.strip now_raw in
  match Str.chop_Z normalized with
  | Some body => (body ++ "+00:00")%string
  | None => normalized
  end.

Section ResolveNow.

(** [datetime.fromisoformat] of the standard library ([None]:
    [ValueError]) and the clock read by [datetime.now]. *)
Variable fromisoformat : string → option datetime.
Variable clock : Z.

(** [resolve_now] returns ([Ok]), raises the [ValueError] that [main]
    turns into a usage error, or lets the [OverflowError] of [astimezone]
    pass. *)
Definition resolve_now (now_raw : option string) (tz : TzInfo)
    : outcome (res datetime) :=
  match now_raw with
  | None => Normally (Ok (datetime_now clock tz))
  | Some raw =>
      match fromisoformat (normalize_now raw) with
      | None => Normally (ValueError (invalid_now_error raw))
      | Some candidate =>
          match tzinfo candidate with
          | None => Normally (Ok (replace_tzinfo candidate tz))
          | Some src =>
              match astimezone src candidate tz with
              | Some now_local => Normally (Ok now_local)
              | None => Uncaught OverflowError
              end
          end
      end
  end.

End ResolveNow.

(** ** A model of the standard library: ISO-8601 text and IANA zones

    [datetime.fromisoformat] and [zoneinfo.ZoneInfo] are not code of this
    program; the program's functions take them as arguments.  The module
    below gives one concrete reading of them, used to run the program on
    concrete inputs: the extended format
    [YYYY-MM-DD[*HH[:MM[:SS[.fff[fff]]]][(+|-)HH:MM[:SS]]]] and zones given
    by their table of transitions. *)

Module PyLib.

Fixpoint take_digits (n : nat) (acc : Z) (s : string) : option (Z * string) :=
  match n with
  | O => Some (acc, s)
  | S k =>
      match s with
      | String c s' =>
          if Str.is_digit c then take_digits k (10 * acc + Str.digit_value c) s'
          else None
      | EmptyString => None
      end
  end.

Definition expect (c : ascii) (s : string) : option string :=
  match s with
  | String c' s' => if Ascii.eqb c c' then Some s' else None
  | EmptyString => None
  end.

Definition is_leap (y : Z) : bool :=
  (y mod 4 =? 0) && (negb (y mod 100 =? 0) || (y mod 400 =? 0)).

Definition days_in_month (y m : Z) : Z :=
  if m =? 2 then (if is_leap y then 29 else 28)
  else if (m =? 4) || (m =? 6) || (m =? 9) || (m =? 11) then 30 else 31.

(** Days from 1970-01-01 to the civil date [y-m-d]. *)
Definition days_from_civil (y m d : Z) : Z :=
  let y' := if m <=? 2 then y - 1 else y in
  let era := y' / 400 in
  let yoe := y' - era * 400 in
  let doy := (153 * (if m >? 2 then m - 3 else m + 9) + 2) / 5 + d - 1 in
  let doe := yoe * 365 + yoe / 4 - yoe / 100 + doy in
  era * 146097 + doe - 719468.

Definition parse_date (s : string) : option (Z * string) :=
  '(y, s) ← take_digits 4 0 s;
  s ← expect "-" s;
  '(m, s) ← take_digits 2 0 s;
  s ← expect "-" s;
  '(d, s) ← take_digits 2 0 s;
  if (1 <=? y) && (1 <=? m) && (m <=? 12) && (1 <=? d) && (d <=? days_in_month y m)
  then Some (days_from_civil y m d, s)
  else None.

Definition parse_fraction (s : string) : option (Z * string) :=
  match take_digits 6 0 s with
  | Some r => Some r
  | None => '(ms, s') ← take_digits 3 0 s; Some (1000 * ms, s')
  end.

(** [HH[:MM[:SS[.fff[fff]]]]] as microseconds into the day. *)
Definition parse_time (s : string) : option (Z * string) :=
  '(h, s) ← take_digits 2 0 s;
  '(mi, sec, us, s) ←
    match s with
    | String ":" s1 =>
        '(mi, s2) ← take_digits 2 0 s1;
        match s2 with
        | String ":" s3 =>
            '(sec, s4) ← take_digits 2 0 s3;
            match s4 with
            | String "." s5 =>
                '(us, s6) ← parse_fraction s5; Some (mi, sec, us, s6)
            | _ => Some (mi, sec, 0, s4)
            end
        | _ => Some (mi, 0, 0, s2)
        end
    | _ => Some (0, 0, 0, s)
    end;
  if (h <? 24) && (mi <? 60) && (sec <? 60)
  then Some (((h * 60 + mi) * 60 + sec) * US_PER_SECOND + us, s)
  else None.

(** The rest of the text: nothing (a naive value) or [(+|-)HH:MM[:SS]]. *)
Definition parse_offset (s : string) : option (option Z) :=
  match s with
  | EmptyString => Some None
  | String sign s =>
      sgn ← (if Ascii.eqb sign "+" then Some 1
             else if Ascii.eqb sign "-" then Some (-1) else None);
      '(h, s) ← take_digits 2 0 s;
      s ← expect ":" s;
      '(mi, s) ← take_digits 2 0 s;
      '(sec, s) ← match s with
                  | String ":" s' => take_digits 2 0 s'
                  | _ => Some (0, s)
                  end;
      match s with
      | EmptyString =>
          if (h <? 24) && (mi <? 60) && (sec <? 60)
          then Some (Some (sgn * ((h * 60 + mi) * 60 + sec) * US_PER_SECOND))
          else None
      | String _ _ => None
      end
  end.

Definition fromisoformat (s : string) : option datetime :=
  '(days, s) ← parse_date s;
  match s with
  | EmptyString => Some {| wall := days * US_PER_DAY; tzinfo := None |}
  | String _ s =>
      '(t, s) ← parse_time s;
      off ← parse_offset s;
      Some {| wall := days * US_PER_DAY + t; tzinfo := timezone <$> off |}
  end.

(** The offset in force at the UTC instant [u]: [before] until the first
    transition, then the offset of the last transition not after [u]. *)
Fixpoint zone_offset (before : Z) (transitions : list (Z * Z)) (u : Z) : Z :=
  match transitions with
  | [] => before
  | (t, after) :: rest =>
      if t <=? u then zone_offset after rest u else before
  end.

(** The same for a wall clock [w] of the zone (first reading of a
    repeated hour). *)
Fixpoint zone_local_offset (before : Z) (transitions : list (Z * Z)) (w : Z) : Z :=
  match transitions with
  | [] => before
  | (t, after) :: rest =>
      if t + Z.max before after <=? w then zone_local_offset after rest w
      else before
  end.

Definition zone (before : Z) (transitions : list (Z * Z)) : TzInfo :=
  {| utcoffset := zone_local_offset before transitions;
     fromutc := λ u, u + zone_offset before transitions u |}.

Definition utc_of_civil (y m d h : Z) : Z :=
  (days_from_civil y m d * 24 + h) * US_PER_HOUR.

Definition UTC : TzInfo := zone 0 [].

(** Europe/Stockholm in 2025 and 2026: CET (+1h), CEST (+2h) from the last
    Sunday of March to the last Sunday of October, switching at 01:00 UTC. *)
Definition Europe_Stockholm : TzInfo :=
  zone US_PER_HOUR
    [ (utc_of_civil 2025 3 30 1, 2 * US_PER_HOUR);
      (utc_of_civil 2025 10 26 1, US_PER_HOUR);
      (utc_of_civil 2026 3 29 1, 2 * US_PER_HOUR);
      (utc_of_civil 2026 10 25 1, US_PER_HOUR) ].

(** Whether a key is a normalized relative path under the zone directory:
    no component is empty (so the key is not empty, not absolute and has
    no final or doubled [/]) or [..], and none is [.] unless it is the whole
    key. *)
Definition normalized_key (key : string) : bool :=
  bool_decide (key = ".")
  || forallb (λ part, nonempty part && negb (bool_decide (part = "."))
                      && negb (bool_decide (part = "..")))
             (Str.split "/" key).

(** [ZoneInfo(key)]: the two zones of the table; [None] is
    [ZoneInfoNotFoundError]; a key that is not a normalized relative path
    raises a plain [ValueError], which [main] does not catch. *)
Definition ZoneInfo (key : string) : outcome (option TzInfo) :=
  if negb (normalized_key key) then Uncaught InvalidZoneKey
  else if bool_decide (key = "UTC") then Normally (Some UTC)
  else if bool_decide (key = "Europe/Stockholm")
  then Normally (Some Europe_Stockholm)
  else Normally None.

End PyLib.

(** ** The remote directory *)

(** The [state] of a compute status as the program reads it: its [name]
    attribute when that is a [str], and [str(state)]. *)
Record ComputeState : Type := {
  state_name_attr : option string;
  state_str : string
}.

Record ComputeStatus : Type := { state : option ComputeState }.

(** An app of the listing; an absent [compute_status] attribute is [None]. *)
Record App : Type := {
  name : string;
  compute_status : option ComputeStatus
}.

Definition _state_name (app : App) : string :=
  match compute_status app ≫= state with
  | None => "UNKNOWN"
  | Some st =>
      match state_name_attr st with
      | Some n => Str.upper n
      | None => Str.upper (Str.replace "ComputeState." "" (state_str st))
      end
  end.

(** One call of [start_and_wait] or [stop_and_wait], and whether it raised. *)
Record Call : Type := {
  call_action : Action;
  call_app : string;
  call_raised : bool
}.

(** A [WorkspaceClient]: [apps_list] is [None] when [client.apps.list()]
    raises; [start_and_wait] and [stop_and_wait] tell whether the call
    raises an [Exception], given the calls issued before it.  (Signals that
    are not [Exception]s, such as [KeyboardInterrupt], end the process and
    are outside the model.) *)
Record Client : Type := {
  apps_list : option (list App);
  start_and_wait : list Call → string → bool;
  stop_and_wait : list Call → string → bool
}.

(** [by_name = {app.name: app for app in client.apps.list()}]: the last app
    of a name wins. *)
Definition by_name_of (listing : list App) : gmap string App :=
  foldl (λ m app, <[name app := app]> m) ∅ listing.

(** [_select_target_apps]; [None] when [client.apps.list()] raises. *)
Definition _select_target_apps (client : Client) (app_names : list string)
    : option (list App * list string) :=
  listing ← apps_list client;
  let by_name := by_name_of listing in
  Some (foldl (λ '(targets, missing) app_name,
                 match by_name !! app_name with
                 | None => (targets, (missing ++ [app_name])%list)
                 | Some app => ((targets ++ [app])%list, missing)
                 end)
              ([], []) app_names).

(** ** Effects of the reconciliation loop

    A computation runs on the log of the calls issued so far.  Inside a
    [try] it either returns a value or lets an [Exception] propagate ([Eff]);
    a [try ... except Exception] statement as a whole always completes
    ([St]). *)

Definition St (A : Type) : Type := list Call → A * list Call.
Definition Eff (A : Type) : Type := St (option A).

Definition eff_ret {A} (a : A) : Eff A := λ log, (Some a, log).

Definition eff_bind {A B} (m : Eff A) (k : A → Eff B) : Eff B :=
  λ log, match m log with
         | (Some a, log') => k a log'
         | (None, log') => (None, log')
         end.

(** [try: body  except Exception: handler] *)
Definition try_except {A} (body : Eff A) (handler : St A) : St A :=
  λ log, match body log with
         | (Some a, log') => (a, log')
         | (None, log') => handler log'
         end.

Notation "'do' x <- m 'in' k" := (eff_bind m (λ x, k))
  (at level 10, x name, m at level 100, k at level 200, only parsing).

(** Whether [action_fn(app_name)] raises after the calls of [log], where
    [action_fn] is [client.apps.start_and_wait] for [start] and
    [client.apps.stop_and_wait] for [stop]. *)
Definition call_raises (client : Client) (action : Action) (log : list Call)
    (app_name : string) : bool :=
  match action with
  | start => start_and_wait client log app_name
  | stop => stop_and_wait client log app_name
  end.

(** [action_fn(app_name)] *)
Definition action_fn (client : Client) (action : Action) (app_name : string)
    : Eff unit :=
  λ log,
    let raised := call_raises client action log app_name in
    (if raised then None else Some tt,
     (log ++ [{| call_action := action; call_app := app_name;
                 call_raised := raised |}])%list).

Definition terminal_states (action : Action) : gset string :=
  match action with start => RUNNING_STATES | stop => STOPPED_STATES end.

(** The counters of the loop of [main]. *)
Record Counters : Type := { failures : Z; updated : Z }.

(** One iteration of [for app in target_apps]. *)
Definition reconcile_app (client : Client) (action : Action) (dry_run : bool)
    (c : Counters) (app : App) : St Counters :=
  let app_name := name app in
  let state := _state_name app in
  try_except
    (if decide (state ∈ terminal_states action) then eff_ret c
     else
       do _u <- (if negb dry_run then action_fn client action app_name
                 else eff_ret tt) in
       eff_ret {| failures := failures c; updated := updated c + 1 |})
    (λ log, ({| failures := failures c + 1; updated := updated c |}, log)).

Fixpoint reconcile_loop (client : Client) (action : Action) (dry_run : bool)
    (c : Counters) (target_apps : list App) : St Counters :=
  λ log,
    match target_apps with
    | [] => (c, log)
    | app :: rest =>
        let '(c', log') := reconcile_app client action dry_run c app log in
        reconcile_loop client action dry_run c' rest log'
    end.

(** ** The command line and the report *)

Inductive ActionMode : Type := auto | force (a : Action).
Inductive OutputFormat : Type := text | json.

(** The [argparse.Namespace] that [parser.parse_args] returns. *)
Module Args.
Record t : Type := {
  app_names : string;
  timezone : string;
  start_hour : Z;
  end_hour : Z;
  active_days : string;
  action : ActionMode;
  now : option string;
  output : OutputFormat;
  profile : option string;
  dry_run : bool;
  ignore_missing_apps : bool;
  verbose : bool
}.
End Args.

(** The payload of [_summary_payload]; [active_days] is present only when
    the action was resolved from the window, and [time_local] holds the
    instant whose [isoformat()] text the payload carries. *)
Module Summary.
Record t : Type := {
  action : Action;
  action_mode : ActionMode;
  apps_changed : Z;
  apps_evaluated : Z;
  apps_requested : list string;
  dry_run : bool;
  end_hour : Z;
  exit_code : Z;
  failures : Z;
  missing_apps : list string;
  output : OutputFormat;
  start_hour : Z;
  time_local : datetime;
  timezone : string;
  active_days : option (list Z)
}.
End Summary.

(** [sorted(active_days)] *)
Definition sorted (s : gset Z) : list Z := merge_sort Z.le (elements s).

Definition _summary_payload (action : Action) (args : Args.t)
    (now_local : datetime) (app_names : list string)
    (apps_changed apps_evaluated exit_code failures : Z)
    (missing_apps : list string) (active_days : option (gset Z)) : Summary.t :=
  {| Summary.action := action;
     Summary.action_mode := Args.action args;
     Summary.apps_changed := apps_changed;
     Summary.apps_evaluated := apps_evaluated;
     Summary.apps_requested := app_names;
     Summary.dry_run := Args.dry_run args;
     Summary.end_hour := Args.end_hour args;
     Summary.exit_code := exit_code;
     Summary.failures := failures;
     Summary.missing_apps := missing_apps;
     Summary.output := Args.output args;
     Summary.start_hour := Args.start_hour args;
     Summary.time_local := now_local;
     Summary.timezone := Args.timezone args;
     Summary.active_days := sorted <$> active_days |}.

(** [emit_result]: what is printed on standard output. *)
Definition emit_result (output_format : OutputFormat) (payload : Summary.t)
    : list Summary.t :=
  match output_format with
  | json => [payload]
  | text => []
  end.

(** How a run of [main] ends: [parser.error] exits the process with a usage
    message and no return value; an exception that nothing catches ends it
    with a traceback; otherwise [main] returns an exit code. *)
Inductive Exit : Type :=
  | UsageError (msg : string)
  | Traceback (e : Exn)
  | Returned (code : Z).

(** What a run of [main] leaves behind: how it ended, the payload it built
    (if it came that far), what it printed on standard output and the
    transition calls it made on the remote directory. *)
Record Run : Type := {
  exit : Exit;
  summary : option Summary.t;
  stdout : list Summary.t;
  calls : list Call
}.

Definition _emit_and_return (action : Action) (active_days : option (gset Z))
    (app_names : list string) (apps_changed apps_evaluated : Z)
    (args : Args.t) (exit_code failures : Z) (missing_apps : list string)
    (now_local : datetime) (log : list Call) : Run :=
  let payload :=
    _summary_payload action args now_local app_names apps_changed
      apps_evaluated exit_code failures missing_apps active_days in
  {| exit := Returned exit_code;
     summary := Some payload;
     stdout := emit_result (Args.output args) payload;
     calls := log |}.

Definition parser_error (msg : string) : Run :=
  {| exit := UsageError msg; summary := None; stdout := []; calls := [] |}.

(** A run that an uncaught exception ends before the selection of the
    action: nothing is printed on standard output, no call is made. *)
Definition traceback (e : Exn) : Run :=
  {| exit := Traceback e; summary := None; stdout := []; calls := [] |}.

(** [_validate_hour]: the message of [parser.error], if any. *)
Definition _validate_hour (value : Z) (flag : string) : option string :=
  if negb ((0 <=? value) && (value <=? 23))
  then Some (flag ++ " must be in the range 0..23.")%string
  else None.

(** ** The world around [main]

    What [main] reads from its environment, with the exceptions that [main]
    handles ([ZoneInfoNotFoundError], [ValueError] of the ISO parser,
    [ImportError] of the SDK and any [Exception] of the client) and those
    that it lets pass ([ValueError] of [ZoneInfo], [OverflowError] of
    [astimezone]). *)

Record World : Type := {
  (** [ZoneInfo(key)]; [None]: [ZoneInfoNotFoundError]; [Uncaught]: the
      [ValueError] of a key that is not a normalized relative path *)
  ZoneInfo : string → outcome (option TzInfo);
  (** [datetime.fromisoformat]; [None]: [ValueError] *)
  fromisoformat : string → option datetime;
  (** the instant [datetime.now] reads, in UTC microseconds *)
  clock : Z;
  (** whether [import databricks.sdk] succeeds *)
  sdk_importable : bool;
  (** [WorkspaceClient(profile=...)] or [WorkspaceClient()]; [None]: raises *)
  WorkspaceClient : option string → option Client
}.

(** The local variables of [main] once the action is selected. *)
Record Plan : Type := {
  plan_app_names : list string;
  plan_now_local : datetime;
  plan_active_days : option (gset Z);
  plan_action : Action
}.

(** [main], from the validation of the arguments to the selection of the
    action; [inl msg] is [parser.error(msg)], [Uncaught e] an exception that
    no [except] clause of [main] matches. *)
Definition main_resolve (w : World) (args : Args.t) : outcome (string + Plan) :=
  match _validate_hour (Args.start_hour args) "--start-hour" with
  | Some msg => Normally (inl msg)
  | None =>
  match _validate_hour (Args.end_hour args) "--end-hour" with
  | Some msg => Normally (inl msg)
  | None =>
  let app_names := parse_app_names (Args.app_names args) in
  match app_names with
  | [] => Normally (inl "--app-names must include at least one app name.")
  | _ :: _ =>
  match ZoneInfo w (Args.timezone args) with
  | Uncaught e => Uncaught e
  | Normally None =>
      Normally (inl ("Unknown timezone '" ++ Args.timezone args ++ "'.")%string)
  | Normally (Some tz) =>
  match resolve_now (fromisoformat w) (clock w) (Args.now args) tz with
  | Uncaught e => Uncaught e
  | Normally (ValueError msg) => Normally (inl msg)
  | Normally (Ok now_local) =>
  match Args.action args with
  | auto =>
      match parse_active_days (Args.active_days args) with
      | ValueError msg =>
          Normally (inl ("--active-days invalid: " ++ msg)%string)
      | Ok active_days =>
          Normally
            (inr {| plan_app_names := app_names;
                    plan_now_local := now_local;
                    plan_active_days := Some active_days;
                    plan_action :=
                      resolve_action now_local (Args.start_hour args)
                        (Args.end_hour args) active_days |})
      end
  | force a =>
      Normally
        (inr {| plan_app_names := app_names;
                plan_now_local := now_local;
                plan_active_days := None;
                plan_action := a |})
  end end end end end end.

Definition truthy (s : option string) : bool :=
  match s with Some (String _ _) => true | _ => false end.

(** [workspace_client(profile=args.profile) if args.profile else
    workspace_client()] *)
Definition new_client (w : World) (args : Args.t) : option Client :=
  WorkspaceClient w (if truthy (Args.profile args) then Args.profile args
                     else None).

(** [main], from the import of the client class to the final return. *)
Definition main_reconcile (w : World) (args : Args.t) (p : Plan) : Run :=
  let action := plan_action p in
  let active_days := plan_active_days p in
  let app_names := plan_app_names p in
  let now_local := plan_now_local p in
  if negb (sdk_importable w) then
    _emit_and_return action active_days app_names 0 0 args 2 1 [] now_local []
  else
  match new_client w args with
  | None =>
    _emit_and_return action active_days app_names 0 0 args 2 1 [] now_local []
  | Some client =>
  match _select_target_apps client app_names with
  | None =>
    _emit_and_return action active_days app_names 0 0 args 2 1 [] now_local []
  | Some (target_apps, missing_apps) =>
  if bool_decide (missing_apps ≠ []) && negb (Args.ignore_missing_apps args) then
    _emit_and_return action active_days app_names 0
      (Z.of_nat (length target_apps)) args 1 0 missing_apps now_local []
  else if bool_decide (target_apps = []) then
    _emit_and_return action active_days app_names 0 0 args
      (if Args.ignore_missing_apps args then 0 else 1) 0 missing_apps
      now_local []
  else
    let '(c, log) :=
      reconcile_loop client action (Args.dry_run args)
        {| failures := 0; updated := 0 |} target_apps [] in
    _emit_and_return action active_days app_names (updated c)
      (Z.of_nat (length target_apps)) args
      (if bool_decide (failures c ≠ 0) then 1 else 0) (failures c)
      missing_apps now_local log
  end end.

Definition main (w : World) (args : Args.t) : Run :=
  match main_resolve w args with
  | Uncaught e => traceback e
  | Normally (inl msg) => parser_error msg
  | Normally (inr p) => main_reconcile w args p
  end.

(** * Vocabulary of the statements *)

(** ** Predicates on strings *)

(** Every character of [s] satisfies [p]. *)
Fixpoint all_chars (p : ascii → bool) (s : string) : bool :=
  match s with
  | EmptyString => true
  | String c s' => p c && all_chars p s'
  end.

(** [s] is whitespace only (possibly empty). *)
Definition all_space : string → bool := all_chars Str.isspace.

(** [s] does not contain the character [sep]. *)
Definition free_of (sep : ascii) : string → bool :=
  all_chars (λ c, negb (Ascii.eqb c sep)).

(** [s] does not start with whitespace. *)
Definition lstripped (s : string) : Prop :=
  match s with
  | String c _ => Str.isspace c = false
  | EmptyString => True
  end.

(** ** The specification's reading of the name list *)

(** [s] does not end with whitespace. *)
Fixpoint rstripped (s : string) : Prop :=
  match s with
  | EmptyString => True
  | String c EmptyString => Str.isspace c = false
  | String _ s' => rstripped s'
  end.

(** [parts] are the comma-separated parts of [raw]: they hold no comma and
    [raw] is these parts with a comma between any two neighbours. *)
Definition comma_parts (raw : string) (parts : list string) : Prop :=
  raw = Str.join "," parts ∧ Forall (λ part, free_of "," part = true) parts.

(** [t] is [part] without the whitespace around it. *)
Definition trimmed (part t : string) : Prop :=
  ∃ l r, part = (l ++ t ++ r)%string
         ∧ all_space l = true ∧ all_space r = true
         ∧ lstripped t ∧ rstripped t.

(** The tokens of a list of parts: every part without the whitespace
    around it, in the same order, the empty ones left out. *)
Inductive tokens_of : list string → list string → Prop :=
  | tokens_of_nil : tokens_of [] []
  | tokens_of_drop part parts toks :
      trimmed part "" → tokens_of parts toks →
      tokens_of (part :: parts) toks
  | tokens_of_keep part t parts toks :
      trimmed part t → t ≠ "" → tokens_of parts toks →
      tokens_of (part :: parts) (t :: toks).

(** Deduplication that keeps the first occurrence of every element, in the
    order of these first occurrences. *)
Fixpoint first_occurrences (l : list string) : list string :=
  match l with
  | [] => []
  | x :: l' => x :: List.filter (λ y, negb (bool_decide (y = x))) (first_occurrences l')
  end.

(** A name as [parse_app_names] returns it: stripped, not empty, without
    comma. *)
Definition clean_name (s : string) : Prop :=
  Str.strip s = s ∧ s ≠ "" ∧ free_of "," s = true.

(** ** The specification's reading of a weekday token *)

(** The weekday a token stands for: an integer literal in the range 0..6. *)
Definition weekday_of_token (token : string) : option Z :=
  match Str.int token with
  | Some day => if (0 <=? day) && (day <=? 6) then Some day else None
  | None => None
  end.

Definition valid_day_token (token : string) : Prop :=
  is_Some (weekday_of_token token).

Definition NO_ACTIVE_DAY_ERROR : string :=
  "At least one active day must be configured.".

(** ** Zones *)

(** A zone whose two maps agree: the wall clock that [fromutc] gives for a
    UTC instant has the offset that leads back to this instant. *)
Definition coherent (tz : TzInfo) : Prop :=
  ∀ u, fromutc tz u - utcoffset tz (fromutc tz u) = u.

(** ** The listing and the loop *)

(** The names of a listing. *)
Definition listed_names (listing : list App) : list string := name <$> listing.

(** The requested names that the listing knows, and those it does not, in
    the order of the request. *)
Definition found_names (listing : list App) (requested : list string) : list string :=
  List.filter (λ n, bool_decide (n ∈ listed_names listing)) requested.

Definition missing_names (listing : list App) (requested : list string) : list string :=
  List.filter (λ n, bool_decide (n ∉ listed_names listing)) requested.

(** The targets that are not yet in a terminal state of the decision. *)
Definition pending (action : Action) (target_apps : list App) : list App :=
  List.filter (λ app, negb (bool_decide (_state_name app ∈ terminal_states action)))
    target_apps.

(** The number of calls of a log that raised. *)
Definition raised_calls (log : list Call) : Z :=
  Z.of_nat (length (List.filter call_raised log)).

(** ** The report of a run *)

(** The report and the return value of a run agree: a run that returns
    built a payload carrying the returned code and printed this payload or
    nothing; a usage error printed no payload, nor did a run that an
    uncaught exception ended. *)
Definition consistent (args : Args.t) (r : Run) : Prop :=
  match exit r with
  | Returned code =>
      ∃ s, summary r = Some s
           ∧ stdout r = emit_result (Args.output args) s
           ∧ Summary.exit_code s = code
  | UsageError _ => summary r = None ∧ stdout r = []
  | Traceback _ => summary r = None ∧ stdout r = []
  end.

(** * Concrete inputs: the double of the test suite *)

(** 2026-02-08 (a Sunday) at [h]:00 in UTC. *)
Definition sunday_2026_02_08 (h : Z) : datetime :=
  {| wall := PyLib.utc_of_civil 2026 2 8 h; tzinfo := Some PyLib.UTC |}.

(** An app whose compute state is the enum member [state_name]. *)
Definition app_in_state (n state_name : string) : App :=
  {| name := n;
     compute_status :=
       Some {| state :=
                 Some {| state_name_attr := Some state_name;
                         state_str := ("ComputeState." ++ state_name)%string |} |} |}.

(** An app without compute status. *)
Definition app_without_status (n : string) : App :=
  {| name := n; compute_status := None |}.

(** A client that lists [apps] and whose transition calls raise exactly for
    the names in [failing]. *)
Definition fake_client (apps : list App) (failing : list string) : Client :=
  {| apps_list := Some apps;
     start_and_wait := λ _ n, bool_decide (n ∈ failing);
     stop_and_wait := λ _ n, bool_decide (n ∈ failing) |}.

Definition fake_world (client : Client) : World :=
  {| ZoneInfo := PyLib.ZoneInfo;
     fromisoformat := PyLib.fromisoformat;
     clock := 0;
     sdk_importable := true;
     WorkspaceClient := λ _, Some client |}.

(** A world in which the SDK cannot be imported. *)
Definition no_sdk_world : World :=
  {| ZoneInfo := PyLib.ZoneInfo;
     fromisoformat := PyLib.fromisoformat;
     clock := 0;
     sdk_importable := false;
     WorkspaceClient := λ _, None |}.

(** [--app-names NAMES --action start --output json --timezone UTC
    --now 2026-02-08T10:00:00+00:00], with or without [--dry-run]. *)
Definition forced_start_args (names : string) (dry : bool) : Args.t :=
  {| Args.app_names := names;
     Args.timezone := "UTC";
     Args.start_hour := 8;
     Args.end_hour := 17;
     Args.active_days := "all";
     Args.action := force start;
     Args.now := Some "2026-02-08T10:00:00+00:00";
     Args.output := json;
     Args.profile := None;
     Args.dry_run := dry;
     Args.ignore_missing_apps := false;
     Args.verbose := false |}.

(** The plan that [main_resolve] makes of [forced_start_args]. *)
Definition forced_start_plan (names : list string) : Plan :=
  {| plan_app_names := names;
     plan_now_local :=
       {| wall := fromutc PyLib.UTC (PyLib.utc_of_civil 2026 2 8 10);
          tzinfo := Some PyLib.UTC |};
     plan_active_days := None;
     plan_action := start |}.

(** A workspace with the single app [app-a], stopped. *)
Definition one_app_world : World :=
  fake_world (fake_client [app_in_state "app-a" "STOPPED"] []).

(** The run that requests [app-a] and [app-b] in this workspace. *)
Definition missing_app_run : Run :=
  main one_app_world (forced_start_args "app-a,app-b" false).

(** The same app behind a client whose transition calls on it raise, and
    the run that starts it. *)
Definition failing_client : Client :=
  fake_client [app_in_state "app-a" "STOPPED"] ["app-a"].

Definition failing_start_run : Run :=
  main (fake_world failing_client) (forced_start_args "app-a" false).

(** Three apps, two of them stopped and one active, behind a client whose
    calls on [app-a] raise, and the run that starts all three. *)
Definition three_apps : list App :=
  [app_in_state "app-a" "STOPPED"; app_in_state "app-b" "Stopped";
   app_in_state "app-c" "active"].

Definition three_apps_world : World :=
  fake_world (fake_client three_apps ["app-a"]).

Definition three_apps_run : Run :=
  main three_apps_world (forced_start_args "app-a,app-b,app-c" false).

(** * Vocabulary of the further properties *)

(** [c] is whitespace or a comma. *)
Definition blank_char (c : ascii) : bool := Str.isspace c || Ascii.eqb c ",".

(** [raw] holds nothing but whitespace and commas. *)
Definition blank (raw : string) : bool := all_chars blank_char raw.

(** The instant [weeks] weeks after [d], on the same wall clock. *)
Definition weeks_later (weeks : Z) (d : datetime) : datetime :=
  {| wall := wall d + weeks * (7 * US_PER_DAY); tzinfo := tzinfo d |}.

(** An app whose compute state has no [name] attribute and prints as
    [text]. *)
Definition app_printing_state (n text : string) : App :=
  {| name := n;
     compute_status :=
       Some {| state := Some {| state_name_attr := None; state_str := text |} |} |}.

(** The four ways in which [main] ends once the arguments are accepted:
    the remote directory cannot be reached; a requested name is missing and
    not ignored; no target is left; or the loop has run over the targets. *)
Inductive Ending (w : World) (args : Args.t) (p : Plan) : Run → Prop :=
  | ending_unreachable :
      sdk_importable w = false
      ∨ (sdk_importable w = true ∧ new_client w args = None)
      ∨ (sdk_importable w = true
         ∧ ∃ client, new_client w args = Some client ∧ apps_list client = None) →
      Ending w args p
        (_emit_and_return (plan_action p) (plan_active_days p)
           (plan_app_names p) 0 0 args 2 1 [] (plan_now_local p) [])
  | ending_missing client listing :
      sdk_importable w = true →
      new_client w args = Some client →
      apps_list client = Some listing →
      missing_names listing (plan_app_names p) ≠ [] →
      Args.ignore_missing_apps args = false →
      Ending w args p
        (_emit_and_return (plan_action p) (plan_active_days p)
           (plan_app_names p) 0
           (Z.of_nat (length (found_names listing (plan_app_names p)))) args
           1 0 (missing_names listing (plan_app_names p)) (plan_now_local p) [])
  | ending_no_target client listing :
      sdk_importable w = true →
      new_client w args = Some client →
      apps_list client = Some listing →
      missing_names listing (plan_app_names p) = []
      ∨ Args.ignore_missing_apps args = true →
      found_names listing (plan_app_names p) = [] →
      Ending w args p
        (_emit_and_return (plan_action p) (plan_active_days p)
           (plan_app_names p) 0 0 args
           (if Args.ignore_missing_apps args then 0 else 1) 0
           (missing_names listing (plan_app_names p)) (plan_now_local p) [])
  | ending_loop client listing target_apps c log :
      sdk_importable w = true →
      new_client w args = Some client →
      apps_list client = Some listing →
      missing_names listing (plan_app_names p) = []
      ∨ Args.ignore_missing_apps args = true →
      target_apps = omap (λ n, by_name_of listing !! n) (plan_app_names p) →
      target_apps ≠ [] →
      reconcile_loop client (plan_action p) (Args.dry_run args)
        {| failures := 0; updated := 0 |} target_apps [] = (c, log) →
      Ending w args p
        (_emit_and_return (plan_action p) (plan_active_days p)
           (plan_app_names p) (updated c) (Z.of_nat (length target_apps)) args
           (if bool_decide (failures c ≠ 0) then 1 else 0) (failures c)
           (missing_names listing (plan_app_names p)) (plan_now_local p) log).

(** A workspace with the single app [app-a], active, and the run that
    starts it. *)
Definition active_app_run : Run :=
  main (fake_world (fake_client [app_in_state "app-a" "active"] []))
    (forced_start_args "app-a" false).

(** The same arguments with another [--active-days] text. *)
Definition with_active_days (text : string) (args : Args.t) : Args.t :=
  {| Args.app_names := Args.app_names args;
     Args.timezone := Args.timezone args;
     Args.start_hour := Args.start_hour args;
     Args.end_hour := Args.end_hour args;
     Args.active_days := text;
     Args.action := Args.action args;
     Args.now := Args.now args;
     Args.output := Args.output args;
     Args.profile := Args.profile args;
     Args.dry_run := Args.dry_run args;
     Args.ignore_missing_apps := Args.ignore_missing_apps args;
     Args.verbose := Args.verbose args |}.

(** The remote directory cannot be reached: the SDK is not importable, the
    client cannot be constructed or the listing raises. *)
Definition unreachable (w : World) (args : Args.t) : Prop :=
  sdk_importable w = false
  ∨ (sdk_importable w = true ∧ new_client w args = None)
  ∨ (sdk_importable w = true
     ∧ ∃ client, new_client w args = Some client ∧ apps_list client = None).

(** [--app-names NAMES --active-days DAYS --output json --timezone UTC
    --now 2026-02-08T10:00:00+00:00] with the window 08-17: the action is
    resolved from the schedule. *)
Definition auto_args (names days : string) : Args.t :=
  {| Args.app_names := names;
     Args.timezone := "UTC";
     Args.start_hour := 8;
     Args.end_hour := 17;
     Args.active_days := days;
     Args.action := auto;
     Args.now := Some "2026-02-08T10:00:00+00:00";
     Args.output := json;
     Args.profile := None;
     Args.dry_run := false;
     Args.ignore_missing_apps := false;
     Args.verbose := false |}.

(** [--app-names NAMES --timezone ZONE --start-hour SH --end-hour EH]
    with a forced start. *)
Definition window_args (sh eh : Z) (names zone : string) : Args.t :=
  {| Args.app_names := names;
     Args.timezone := zone;
     Args.start_hour := sh;
     Args.end_hour := eh;
     Args.active_days := "all";
     Args.action := force start;
     Args.now := None;
     Args.output := text;
     Args.profile := None;
     Args.dry_run := false;
     Args.ignore_missing_apps := false;
     Args.verbose := false |}.

(** An instant that the ISO parser gave can be brought to the zone [tz]:
    if it carries an offset, the instant it denotes, read in UTC and read in
    [tz], is a wall clock that a [datetime] can hold. *)
Definition convertible (tz : TzInfo) (c : datetime) : Prop :=
  ∀ src, tzinfo c = Some src →
    in_range (utc_instant src c) = true
    ∧ in_range (fromutc tz (utc_instant src c)) = true.

(** [--app-names app-a --action start --timezone ZONE --now NOW]. *)
Definition instant_args (zone now_raw : string) : Args.t :=
  {| Args.app_names := "app-a";
     Args.timezone := zone;
     Args.start_hour := 8;
     Args.end_hour := 17;
     Args.active_days := "all";
     Args.action := force start;
     Args.now := Some now_raw;
     Args.output := json;
     Args.profile := None;
     Args.dry_run := false;
     Args.ignore_missing_apps := false;
     Args.verbose := false |}.

(** [__main__.py]: [raise SystemExit(main())].  The status of the process
    is the code that [main] returns; [parser.error] has already left with
    the status 2 of [argparse]; the interpreter ends a run with an uncaught
    exception by printing the traceback, with the status 1. *)
Definition process_status (r : Run) : Z :=
  match exit r with
  | UsageError _ => 2
  | Traceback _ => 1
  | Returned code => code
  end.

(** The [Namespace] that the parser of [build_parser] returns for
    [--app-names NAMES] alone: every other option at its default. *)
Definition default_args (names : string) : Args.t :=
  {| Args.app_names := names;
     Args.timezone := "UTC";
     Args.start_hour := 8;
     Args.end_hour := 17;
     Args.active_days := "all";
     Args.action := auto;
     Args.now := None;
     Args.output := text;
     Args.profile := None;
     Args.dry_run := false;
     Args.ignore_missing_apps := false;
     Args.verbose := false |}.

(** A world whose clock reads 2026-02-08T09:30:00 UTC. *)
Definition morning_world : World :=
  {| ZoneInfo := PyLib.ZoneInfo;
     fromisoformat := PyLib.fromisoformat;
     clock := PyLib.utc_of_civil 2026 2 8 9 + 1800 * US_PER_SECOND;
     sdk_importable := true;
     WorkspaceClient := λ _, Some (fake_client three_apps []) |}.

(** The plan that [main_resolve] makes of [default_args "app-a"] in
    [morning_world]. *)
Definition morning_plan : Plan :=
  {| plan_app_names := ["app-a"];
     plan_now_local := datetime_now (clock morning_world) PyLib.UTC;
     plan_active_days := Some all_days;
     plan_action := start |}.

(** [forced_start_args] with [--ignore-missing-apps]. *)
Definition ignoring_args (names : string) : Args.t :=
  {| Args.app_names := names;
     Args.timezone := "UTC";
     Args.start_hour := 8;
     Args.end_hour := 17;
     Args.active_days := "all";
     Args.action := force start;
     Args.now := Some "2026-02-08T10:00:00+00:00";
     Args.output := json;
     Args.profile := None;
     Args.dry_run := false;
     Args.ignore_missing_apps := true;
     Args.verbose := false |}.

(** * Properties *)

(** ** The functions on the examples of the test suite *)

Example split_ex : Str.split "," " app-a,app-b,,c " = [" app-a"; "app-b"; ""; "c "].
Proof. reflexivity. Qed.
Example split_empty_ex : Str.split "," "" = [""].
Proof. reflexivity. Qed.
Example strip_ex : Str.strip "  a b  " = "a b".
Proof. reflexivity. Qed.
Example replace_ex :
  Str.replace "ComputeState." "" "ComputeState.Active" = "Active".
Proof. reflexivity. Qed.
Example replace_ex2 : Str.replace "aa" "b" "aaaxaa" = "baxb".
Proof. reflexivity. Qed.
Example int_ex : Str.int "+0_3" = Some 3%Z ∧ Str.int "-0" = Some 0%Z
  ∧ Str.int "1_" = None ∧ Str.int "" = None ∧ Str.int "1 2" = None.
Proof. repeat split; reflexivity. Qed.
Example chop_Z_ex : Str.chop_Z "10:00Z" = Some "10:00" ∧ Str.chop_Z "Zz" = None.
Proof. split; reflexivity. Qed.
Example parse_app_names_test :
  parse_app_names " app-a,app-b,app-a,, app-c " = ["app-a"; "app-b"; "app-c"].
Proof. vm_compute. reflexivity. Qed.
Example parse_app_names_spec_ex : parse_app_names "a,b,a, ,c" = ["a"; "b"; "c"].
Proof. vm_compute. reflexivity. Qed.
Example parse_active_days_all_ex : parse_active_days "all" = Ok all_days.
Proof. reflexivity. Qed.
Example parse_active_days_subset_ex :
  parse_active_days "0,2,4" = Ok (list_to_set [0; 2; 4]%Z).
Proof. vm_compute. reflexivity. Qed.
Example parse_active_days_7_ex :
  parse_active_days "7" = ValueError (INVALID_WEEKDAY_ERROR "7").
Proof. vm_compute. reflexivity. Qed.
Example fromisoformat_ex :
  (d ← PyLib.fromisoformat "2026-02-08T10:00:00+00:00"; Some (hour d, weekday d))
  = Some (10, 6).
Proof. vm_compute. reflexivity. Qed.
Example fromisoformat_bad_ex :
  PyLib.fromisoformat "2026-02-30T10:00:00" = None
  ∧ PyLib.fromisoformat "2026-02-08T10:00:00Z" = None
  ∧ PyLib.fromisoformat "yesterday" = None.
Proof. repeat split; vm_compute; reflexivity. Qed.
Example resolve_now_stockholm_ex :
  match resolve_now PyLib.fromisoformat 0
          (Some "2026-02-08T10:00:00+00:00") PyLib.Europe_Stockholm with
  | Normally (Ok d) => hour d
  | _ => -1
  end = 11.
Proof. vm_compute. reflexivity. Qed.
Example wall_range_ex :
  MIN_WALL = PyLib.utc_of_civil 1 1 1 0
  ∧ MAX_WALL = PyLib.utc_of_civil 9999 12 31 23 + US_PER_HOUR - 1.
Proof. split; vm_compute; reflexivity. Qed.
Example astimezone_overflow_ex :
  PyLib.fromisoformat "0001-01-01T00:00:00+01:00"
    = Some {| wall := MIN_WALL; tzinfo := Some (timezone US_PER_HOUR) |}
  ∧ astimezone (timezone US_PER_HOUR)
      {| wall := MIN_WALL; tzinfo := Some (timezone US_PER_HOUR) |} PyLib.UTC
    = None.
Proof. split; vm_compute; reflexivity. Qed.
Example ZoneInfo_ex :
  PyLib.ZoneInfo "UTC" = Some PyLib.UTC
  ∧ PyLib.ZoneInfo "Mars/Olympus" = None
  ∧ PyLib.ZoneInfo "" = Uncaught InvalidZoneKey
  ∧ PyLib.ZoneInfo "../x" = Uncaught InvalidZoneKey
  ∧ PyLib.ZoneInfo "/etc/passwd" = Uncaught InvalidZoneKey.
Proof. repeat split; vm_compute; reflexivity. Qed.
Example main_forced_start_dry_run_test :
  let run := main (fake_world (fake_client [app_in_state "app-a" "STOPPED"] []))
               (forced_start_args "app-a" true) in
  exit run = Returned 0
  ∧ calls run = []
  ∧ Summary.action <$> stdout run = [start]
  ∧ Summary.action_mode <$> stdout run = [force start]
  ∧ Summary.apps_changed <$> stdout run = [1]
  ∧ Summary.apps_evaluated <$> stdout run = [1]
  ∧ Summary.dry_run <$> stdout run = [true]
  ∧ Summary.exit_code <$> stdout run = [0].
Proof. vm_compute. repeat split. Qed.

(** ** Facts on the string functions *)

Module StrFacts.
Import Str.

#[local] Arguments isspace : simpl never.
#[local] Arguments Ascii.eqb : simpl never.

Lemma lstrip_lstripped s : lstripped (lstrip s).
Proof.
  induction s as [|c s IH]; simpl; [done|].
  destruct (isspace c) eqn:E; [done|]. simpl. done.
Qed.

Lemma lstrip_of_lstripped s : lstripped s → lstrip s = s.
Proof. destruct s as [|c s]; simpl; [done|]. by intros ->. Qed.

Lemma rstrip_cons_nonspace c s :
  isspace c = false → rstrip (String c s) = String c (rstrip s).
Proof. intros E. simpl. rewrite E. by destruct (rstrip s). Qed.

Lemma rstrip_lstripped s : lstripped s → lstripped (rstrip s).
Proof.
  destruct s as [|c s]; [done|]. intros E. simpl in E.
  by rewrite rstrip_cons_nonspace.
Qed.

Lemma rstrip_idemp s : rstrip (rstrip s) = rstrip s.
Proof.
  induction s as [|c s IH]; [done|].
  simpl. destruct (rstrip s) as [|d r] eqn:E.
  - destruct (isspace c) eqn:Ec; [done|]. simpl. by rewrite Ec.
  - change (rstrip (String c (String d r)) = String c (String d r)).
    cbn [rstrip]. cbn [rstrip] in IH. by rewrite IH.
Qed.

Lemma strip_idemp s : strip (strip s) = strip s.
Proof.
  unfold strip.
  rewrite (lstrip_of_lstripped (rstrip (lstrip s))).
  - apply rstrip_idemp.
  - apply rstrip_lstripped, lstrip_lstripped.
Qed.

Lemma lstrip_all_space s : all_space s = true → lstrip s = "".
Proof.
  unfold all_space. induction s as [|c s IH]; [done|]. simpl.
  intros [Hc Hs]%andb_prop. rewrite Hc. by apply IH.
Qed.

Lemma rstrip_empty s : rstrip s = "" → all_space s = true.
Proof.
  induction s as [|c s IH]; [done|]. simpl.
  destruct (rstrip s) eqn:E; [|done].
  destruct (isspace c) eqn:Ec; [|done]. intros _.
  unfold all_space in *. simpl. rewrite Ec. by rewrite IH.
Qed.

Lemma all_space_lstrip s : all_space (lstrip s) = true → all_space s = true.
Proof.
  unfold all_space. induction s as [|c s IH]; [done|]. simpl.
  destruct (isspace c) eqn:E; simpl.
  - apply IH.
  - by rewrite E.
Qed.

(** [s.strip()] is empty exactly when [s] is whitespace only. *)
Lemma strip_empty_iff s : strip s = "" ↔ all_space s = true.
Proof.
  unfold strip. split.
  - intros H. by apply all_space_lstrip, rstrip_empty.
  - intros H. by rewrite lstrip_all_space.
Qed.

Lemma all_chars_lstrip p s : all_chars p s = true → all_chars p (lstrip s) = true.
Proof.
  induction s as [|c s IH]; [done|]. simpl.
  intros [Hc Hs]%andb_prop. destruct (isspace c); [by apply IH|].
  simpl. by rewrite Hc, Hs.
Qed.

Lemma all_chars_rstrip p s : all_chars p s = true → all_chars p (rstrip s) = true.
Proof.
  induction s as [|c s IH]; [done|]. simpl.
  intros [Hc Hs]%andb_prop. specialize (IH Hs).
  destruct (rstrip s) as [|d r].
  - destruct (isspace c); [done|]. simpl. by rewrite Hc.
  - simpl in *. by rewrite Hc, IH.
Qed.

Lemma all_chars_strip p s : all_chars p s = true → all_chars p (strip s) = true.
Proof. intros H. by apply all_chars_rstrip, all_chars_lstrip. Qed.

(** The parts of a split contain no separator. *)
Lemma split_free sep s : Forall (λ p, free_of sep p = true) (split sep s).
Proof.
  induction s as [|c s IH]; simpl.
  - by constructor.
  - destruct (Ascii.eqb c sep) eqn:E.
    + by constructor.
    + destruct (split sep s) as [|h t]; inversion IH; subst;
        constructor; try done; unfold free_of in *; simpl; by rewrite E.
Qed.

Lemma split_free_one sep s : free_of sep s = true → split sep s = [s].
Proof.
  unfold free_of. induction s as [|c s IH]; [done|]. simpl.
  intros [Hc Hs]%andb_prop. apply negb_true_iff in Hc. rewrite Hc.
  by rewrite (IH Hs).
Qed.

Lemma split_app sep p s :
  free_of sep p = true → split sep (p ++ String sep s) = p :: split sep s.
Proof.
  unfold free_of. induction p as [|c p IH]; simpl.
  - intros _. by rewrite Ascii.eqb_refl.
  - intros [Hc Hp]%andb_prop. apply negb_true_iff in Hc. rewrite Hc.
    by rewrite (IH Hp).
Qed.

(** Splitting a comma-join gives the parts back. *)
Lemma split_join sep parts :
  parts ≠ [] → Forall (λ p, free_of sep p = true) parts →
  split sep (join (String sep "") parts) = parts.
Proof.
  induction parts as [|p rest IH]; [done|]. intros _ H.
  inversion H as [|? ? Hp Hrest]; subst.
  destruct rest as [|q rest].
  - simpl. by apply split_free_one.
  - change (join (String sep "") (p :: q :: rest))
      with (p ++ String sep (join (String sep "") (q :: rest))).
    rewrite split_app by done. f_equal. by apply IH.
Qed.

Lemma join_cons sep p rest :
  rest ≠ [] → join sep (p :: rest) = (p ++ sep ++ join sep rest)%string.
Proof. by destruct rest. Qed.

Lemma split_not_nil sep s : split sep s ≠ [].
Proof.
  destruct s as [|c s]; simpl; [done|].
  destruct (Ascii.eqb c sep); [done|]. by destruct (split sep s).
Qed.

(** Joining the parts of a split gives the text back. *)
Lemma join_split sep s : join (String sep "") (split sep s) = s.
Proof.
  induction s as [|c s IH]; [done|]. cbn [split].
  destruct (Ascii.eqb_spec c sep) as [->|Hne].
  - rewrite join_cons by apply split_not_nil. by rewrite IH.
  - pose proof (split_not_nil sep s) as Hnil.
    destruct (split sep s) as [|h t]; [done|].
    destruct t as [|h' t]; [simpl in *; congruence|].
    rewrite join_cons by done. rewrite join_cons in IH by done.
    by rewrite <- IH.
Qed.

Lemma lstrip_app_space l s : all_space l = true → lstrip (l ++ s) = lstrip s.
Proof.
  unfold all_space. induction l as [|c l IH]; [done|]. simpl.
  intros [Hc Hl]%andb_prop. rewrite Hc. by apply IH.
Qed.

Lemma rstrip_all_space s : all_space s = true → rstrip s = "".
Proof.
  unfold all_space. induction s as [|c s IH]; [done|]. simpl.
  intros [Hc Hs]%andb_prop. by rewrite (IH Hs), Hc.
Qed.

Lemma rstrip_app_space t r : all_space r = true → rstrip (t ++ r) = rstrip t.
Proof.
  intros Hr. induction t as [|c t IH].
  - by apply rstrip_all_space.
  - change (String c t ++ r)%string with (String c (t ++ r)).
    cbn [rstrip]. by rewrite IH.
Qed.

Lemma rstrip_of_rstripped t : rstripped t → rstrip t = t.
Proof.
  induction t as [|c t IH]; [done|]. destruct t as [|d t].
  - simpl. by intros ->.
  - intros H. change (rstripped (String d t)) in H.
    cbn [rstrip]. cbn [rstrip] in IH. by rewrite (IH H).
Qed.

Lemma rstrip_rstripped s : rstripped (rstrip s).
Proof.
  induction s as [|c s IH]; [done|]. cbn [rstrip].
  destruct (rstrip s) as [|d r].
  - destruct (isspace c) eqn:Ec; [done|]. simpl. done.
  - exact IH.
Qed.

Lemma lstrip_decomp s : ∃ l, s = (l ++ lstrip s)%string ∧ all_space l = true.
Proof.
  induction s as [|c s (l & Hl & Hsp)]; [by exists ""|]. simpl.
  destruct (isspace c) eqn:Ec.
  - exists (String c l). split.
    + change (String c l ++ lstrip s)%string with (String c (l ++ lstrip s)).
      by rewrite <- Hl.
    + unfold all_space in *. simpl. by rewrite Ec.
  - by exists "".
Qed.

Lemma rstrip_decomp s : ∃ r, s = (rstrip s ++ r)%string ∧ all_space r = true.
Proof.
  induction s as [|c s (r & Hr & Hsp)]; [by exists ""|]. cbn [rstrip].
  destruct (rstrip s) as [|d t] eqn:E.
  - destruct (isspace c) eqn:Ec.
    + exists (String c s). split; [done|].
      change ("" ++ r)%string with r in Hr. subst r.
      unfold all_space in *. simpl. by rewrite Ec.
    + exists r. split; [|done].
      change ("" ++ r)%string with r in Hr.
      change (String c "" ++ r)%string with (String c r). by rewrite <- Hr.
  - exists r. split; [|done].
    change (String c (String d t) ++ r)%string with (String c (String d t ++ r)).
    by rewrite <- Hr.
Qed.

(** [strip] removes exactly the whitespace around a text. *)
Lemma strip_trimmed part : trimmed part (strip part).
Proof.
  destruct (lstrip_decomp part) as (l & Hl & Hlsp).
  destruct (rstrip_decomp (lstrip part)) as (r & Hr & Hrsp).
  exists l, r. split_and!; try done.
  - unfold strip. by rewrite <- Hr.
  - apply rstrip_lstripped, lstrip_lstripped.
  - apply rstrip_rstripped.
Qed.

Lemma trimmed_strip part t : trimmed part t → strip part = t.
Proof.
  intros (l & r & -> & Hl & Hr & Hlt & Hrt). unfold strip.
  rewrite lstrip_app_space by done.
  destruct t as [|c t].
  - change ("" ++ r)%string with r. by rewrite lstrip_all_space.
  - rewrite lstrip_of_lstripped by done.
    rewrite rstrip_app_space by done. by apply rstrip_of_rstripped.
Qed.

End StrFacts.

(** ** The name list: [parse_app_names] *)

Section AppNames.

Implicit Types (seen : gset string) (names tokens : list string).

Lemma filter_first_occurrences_seen seen x l :
  x ∈ seen →
  List.filter (λ y, bool_decide (y ∉ seen))
    (List.filter (λ y, negb (bool_decide (y = x))) l)
  = List.filter (λ y, bool_decide (y ∉ seen)) l.
Proof.
  intros Hx. induction l as [|y l IH]; [done|].
  simpl. destruct (bool_decide (y = x)) eqn:E; simpl.
  - apply bool_decide_eq_true in E as ->.
    rewrite bool_decide_eq_false_2 by (intros H; by apply H). done.
  - destruct (bool_decide (y ∉ seen)); by rewrite IH.
Qed.

Lemma filter_first_occurrences_fresh seen x l :
  List.filter (λ y, bool_decide (y ∉ seen))
    (List.filter (λ y, negb (bool_decide (y = x))) l)
  = List.filter (λ y, bool_decide (y ∉ {[x]} ∪ seen)) l.
Proof.
  induction l as [|y l IH]; [done|].
  simpl. destruct (bool_decide (y = x)) eqn:E; simpl.
  - apply bool_decide_eq_true in E as ->.
    rewrite (bool_decide_eq_false_2 (x ∉ {[x]} ∪ seen)) by set_solver. done.
  - apply bool_decide_eq_false in E.
    destruct (decide (y ∈ seen)) as [Hy|Hy].
    + rewrite (bool_decide_eq_false_2 (y ∉ seen)) by (intros H; by apply H).
      rewrite (bool_decide_eq_false_2 (y ∉ {[x]} ∪ seen)); [done|].
      intros Hn. apply Hn. by apply elem_of_union_r.
    + rewrite (bool_decide_eq_true_2 (y ∉ seen)) by done.
      rewrite (bool_decide_eq_true_2 (y ∉ {[x]} ∪ seen))
        by (by rewrite not_elem_of_union, not_elem_of_singleton).
      simpl. by rewrite IH.
Qed.

(** The loop of [parse_app_names], from any state [(seen, names)]. *)
Lemma parse_app_names_loop seen names tokens :
  snd (foldl parse_app_names_step (seen, names) tokens)
  = (names ++ List.filter (λ y, bool_decide (y ∉ seen)) (first_occurrences tokens))%list.
Proof.
  revert seen names. induction tokens as [|x tokens IH]; intros seen names.
  - simpl. by rewrite app_nil_r.
  - simpl. destruct (decide (x ∈ seen)) as [Hx|Hx].
    + rewrite IH. rewrite bool_decide_eq_false_2 by (intros H; by apply H).
      by rewrite filter_first_occurrences_seen.
    + rewrite IH. rewrite bool_decide_eq_true_2 by done.
      rewrite <- app_assoc. simpl. by rewrite filter_first_occurrences_fresh.
Qed.

Lemma filter_true_id {A} (l : list A) : List.filter (λ _, true) l = l.
Proof. induction l; simpl; congruence. Qed.

Lemma parse_app_names_first_occurrences raw :
  parse_app_names raw = first_occurrences (_csv_tokens raw).
Proof.
  unfold parse_app_names. rewrite parse_app_names_loop. simpl.
  erewrite List.filter_ext; [apply filter_true_id|].
  intros y. simpl. apply bool_decide_eq_true_2. set_solver.
Qed.

Lemma elem_of_filter_bool {A} (f : A → bool) (l : list A) x :
  x ∈ List.filter f l ↔ x ∈ l ∧ f x = true.
Proof. rewrite !list_elem_of_In. apply List.filter_In. Qed.

Lemma sublist_filter_bool {A} (f : A → bool) (l : list A) :
  List.filter f l `sublist_of` l.
Proof.
  induction l as [|y l IH]; simpl; [done|].
  destruct (f y); by constructor.
Qed.

Lemma NoDup_filter_bool {A} (f : A → bool) (l : list A) :
  NoDup l → NoDup (List.filter f l).
Proof. intros H. eapply sublist_NoDup; [exact H|apply sublist_filter_bool]. Qed.

Lemma elem_of_first_occurrences x tokens :
  x ∈ first_occurrences tokens ↔ x ∈ tokens.
Proof.
  induction tokens as [|y tokens IH]; [done|]. simpl.
  rewrite !elem_of_cons, elem_of_filter_bool, IH.
  destruct (decide (x = y)) as [->|Hne]; [tauto|].
  rewrite bool_decide_eq_false_2 by done. simpl. tauto.
Qed.

Lemma NoDup_first_occurrences tokens : NoDup (first_occurrences tokens).
Proof.
  induction tokens as [|y tokens IH]; simpl; constructor.
  - rewrite elem_of_filter_bool. intros [_ H].
    by rewrite bool_decide_eq_true_2 in H.
  - by apply NoDup_filter_bool.
Qed.

Lemma first_occurrences_sublist tokens :
  first_occurrences tokens `sublist_of` tokens.
Proof.
  induction tokens as [|y tokens IH]; simpl; [done|].
  constructor. etrans; [apply sublist_filter_bool|done].
Qed.

Lemma filter_bool_all {A} (f : A → bool) (l : list A) :
  Forall (λ x, f x = true) l → List.filter f l = l.
Proof. induction 1 as [|x l Hx _ IH]; simpl; [done|]. by rewrite Hx, IH. Qed.

(** On a list without duplicates nothing is removed. *)
Lemma first_occurrences_NoDup tokens :
  NoDup tokens → first_occurrences tokens = tokens.
Proof.
  induction 1 as [|y tokens Hy _ IH]; simpl; [done|].
  rewrite IH. f_equal. apply filter_bool_all, Forall_forall.
  intros x Hx. apply negb_true_iff, bool_decide_eq_false_2. by intros ->.
Qed.

(** Every token of [_csv_tokens] is stripped, not empty and comma-free. *)
Lemma csv_tokens_clean raw : Forall clean_name (_csv_tokens raw).
Proof.
  apply Forall_forall. intros t. unfold _csv_tokens.
  rewrite elem_of_filter_bool, list_elem_of_In, List.in_map_iff.
  intros [(p & <- & Hp%list_elem_of_In) Hne]. repeat split.
  - apply StrFacts.strip_idemp.
  - by destruct (Str.strip p).
  - apply StrFacts.all_chars_strip.
    by eapply (proj1 (Forall_forall _ _) (StrFacts.split_free "," raw)).
Qed.

(** Clean names survive being joined with commas and tokenised again. *)
Lemma csv_tokens_join names :
  Forall clean_name names → _csv_tokens (Str.join "," names) = names.
Proof.
  intros H. destruct names as [|n names]; [done|].
  unfold _csv_tokens. rewrite StrFacts.split_join.
  - replace (List.map Str.strip (n :: names)) with (List.map id (n :: names)).
    + rewrite List.map_id. apply filter_bool_all.
      eapply Forall_impl; [exact H|]. intros s (_ & Hs & _). by destruct s.
    + symmetry. apply List.map_ext_Forall.
      eapply Forall_impl; [exact H|]. by intros s (Hs & _).
  - done.
  - eapply Forall_impl; [exact H|]. by intros s (_ & _ & Hs).
Qed.

(** The code's tokens are the specification's tokens of the comma-separated
    parts. *)
Lemma tokens_of_strip parts toks :
  tokens_of parts toks →
  List.filter nonempty (List.map Str.strip parts) = toks.
Proof.
  induction 1 as [|part parts toks Ht _ IH|part t parts toks Ht Hne _ IH];
    [done| |]; simpl; rewrite (StrFacts.trimmed_strip _ _ Ht), IH.
  - done.
  - by destruct t.
Qed.

Lemma tokens_of_parts parts :
  tokens_of parts (List.filter nonempty (List.map Str.strip parts)).
Proof.
  induction parts as [|part parts IH]; [constructor|]. simpl.
  pose proof (StrFacts.strip_trimmed part) as Ht.
  destruct (Str.strip part) as [|c t] eqn:E; simpl.
  - by apply tokens_of_drop.
  - by apply tokens_of_keep.
Qed.

Lemma csv_tokens_tokens_of raw parts toks :
  comma_parts raw parts → tokens_of parts toks → _csv_tokens raw = toks.
Proof.
  intros [-> Hfree] Htoks. unfold _csv_tokens.
  destruct parts as [|part parts].
  - by inversion Htoks.
  - rewrite StrFacts.split_join by done. by apply tokens_of_strip.
Qed.

Lemma csv_tokens_parts raw :
  comma_parts raw (Str.split "," raw)
  ∧ tokens_of (Str.split "," raw) (_csv_tokens raw).
Proof.
  split; [split|].
  - by rewrite StrFacts.join_split.
  - apply StrFacts.split_free.
  - apply tokens_of_parts.
Qed.

End AppNames.

(** C7: [parse_app_names] is total.  Whatever way the text is cut at its
    commas into comma-free parts, and the whitespace around every part
    taken away, the result is the non-empty tokens with duplicates removed,
    every name at its first occurrence: a duplicate-free sublist of the
    tokens with the same elements.  There is always such a cut.  The empty
    text gives the empty list, [a,b,a, ,c] gives [a], [b], [c], and parsing
    the comma-join of a result gives the same list again. *)
Theorem parse_app_names_dedup_idempotent (raw : string) :
  (∃ parts toks, comma_parts raw parts ∧ tokens_of parts toks)
  ∧ (∀ parts toks, comma_parts raw parts → tokens_of parts toks →
       parse_app_names raw = first_occurrences toks
       ∧ parse_app_names raw `sublist_of` toks
       ∧ (∀ x, x ∈ parse_app_names raw ↔ x ∈ toks))
  ∧ NoDup (parse_app_names raw)
  ∧ parse_app_names "" = []
  ∧ parse_app_names "a,b,a, ,c" = ["a"; "b"; "c"]
  ∧ parse_app_names (Str.join "," (parse_app_names raw)) = parse_app_names raw.
Proof.
  split_and!.
  - exists (Str.split "," raw), (_csv_tokens raw). apply csv_tokens_parts.
  - intros parts toks Hparts Htoks.
    rewrite parse_app_names_first_occurrences.
    rewrite (csv_tokens_tokens_of raw parts toks Hparts Htoks).
    split_and!.
    + done.
    + apply first_occurrences_sublist.
    + intros x. apply elem_of_first_occurrences.
  - rewrite parse_app_names_first_occurrences. apply NoDup_first_occurrences.
  - done.
  - by vm_compute.
  - rewrite !parse_app_names_first_occurrences. rewrite csv_tokens_join.
    + apply first_occurrences_NoDup, NoDup_first_occurrences.
    + apply Forall_forall. intros x Hx.
      rewrite elem_of_first_occurrences in Hx.
      by apply (proj1 (Forall_forall _ _) (csv_tokens_clean raw)).
Qed.

Lemma parse_app_names_dedup_idempotent_witness :
  parse_app_names " app-a,app-b,app-a,, app-c "
    = first_occurrences ["app-a"; "app-b"; "app-a"; "app-c"]
  ∧ parse_app_names " app-a,app-b,app-a,, app-c " = ["app-a"; "app-b"; "app-c"].
Proof.
  assert (H : parse_app_names " app-a,app-b,app-a,, app-c "
              = first_occurrences ["app-a"; "app-b"; "app-a"; "app-c"]).
  { apply (proj1 (proj2 (parse_app_names_dedup_idempotent
                           " app-a,app-b,app-a,, app-c "))
             [" app-a"; "app-b"; "app-a"; ""; " app-c "]).
    - split; [reflexivity|]. by repeat constructor.
    - apply (tokens_of_keep _ "app-a");
        [by exists " ", ""|done|].
      apply (tokens_of_keep _ "app-b");
        [by exists "", ""|done|].
      apply (tokens_of_keep _ "app-a");
        [by exists "", ""|done|].
      apply tokens_of_drop;
        [by exists "", ""|].
      apply (tokens_of_keep _ "app-c");
        [by exists " ", " "|done|].
      constructor. }
  split; [exact H|]. rewrite H. reflexivity.
Defined.

(** ** The weekday set: [parse_active_days] *)

Section ActiveDays.

Implicit Types (tokens good rest : list string) (acc : gset Z).

Lemma parse_active_days_loop_valid acc tokens :
  Forall valid_day_token tokens →
  parse_active_days_loop acc tokens
  = Ok (list_to_set (omap weekday_of_token tokens) ∪ acc).
Proof.
  intros H. revert acc. induction H as [|t tokens [d Hd] _ IH]; intros acc.
  - simpl. f_equal. by rewrite (left_id_L ∅ (∪)).
  - simpl. rewrite Hd. unfold weekday_of_token in Hd.
    destruct (Str.int t) as [day|]; [|done].
    destruct ((0 <=? day) && (day <=? 6)) eqn:E; [|done].
    injection Hd as ->.
    apply andb_prop in E as [E1%Z.leb_le E2%Z.leb_le].
    replace ((d <? 0) || (d >? 6)) with false by lia.
    rewrite IH. f_equal. simpl.
    rewrite (assoc_L (∪)). f_equal. apply (comm_L (∪)).
Qed.

Lemma parse_active_days_loop_invalid acc token rest :
  ¬ valid_day_token token →
  parse_active_days_loop acc (token :: rest)
  = ValueError (INVALID_WEEKDAY_ERROR token).
Proof.
  unfold valid_day_token, weekday_of_token. intros H. simpl.
  destruct (Str.int token) as [day|]; [|done].
  destruct ((day <? 0) || (day >? 6)) eqn:E; [done|].
  exfalso. apply H.
  replace ((0 <=? day) && (day <=? 6)) with true by lia. by eexists.
Qed.

Lemma parse_active_days_loop_first_invalid acc good token rest :
  Forall valid_day_token good → ¬ valid_day_token token →
  parse_active_days_loop acc (good ++ token :: rest)
  = ValueError (INVALID_WEEKDAY_ERROR token).
Proof.
  intros Hgood Hbad. revert acc.
  induction Hgood as [|t good [d Hd] _ IH]; intros acc.
  - by apply parse_active_days_loop_invalid.
  - simpl. unfold weekday_of_token in Hd.
    destruct (Str.int t) as [day|]; [|done].
    destruct ((0 <=? day) && (day <=? 6)) eqn:E; [|done].
    apply andb_prop in E as [E1%Z.leb_le E2%Z.leb_le].
    replace ((day <? 0) || (day >? 6)) with false by lia.
    apply IH.
Qed.

Lemma lower_empty s : Str.lower s = "" ↔ s = "".
Proof. by destruct s. Qed.

(** No whitespace character and no comma becomes the letter [a] in lower
    case. *)
Lemma lower_char_not_a c :
  Str.isspace c || Ascii.eqb c "," = true → Str.lower_char c ≠ "a"%char.
Proof.
  destruct c as [[] [] [] [] [] [] [] []]; vm_compute; congruence.
Qed.

(** If every part of a split consists of characters satisfying [p], the
    text consists of such characters and separators. *)
Lemma split_parts_chars p sep s :
  Forall (λ part, all_chars p part = true) (Str.split sep s) →
  all_chars (λ c, p c || Ascii.eqb c sep) s = true.
Proof.
  induction s as [|c s IH]; [done|]. simpl.
  destruct (Ascii.eqb c sep) eqn:E.
  - intros H. inversion H; subst. rewrite orb_true_r. simpl. by apply IH.
  - destruct (Str.split sep s) as [|h t].
    + intros H. rewrite IH by constructor.
      inversion H as [|? ? Hc _]; subst. simpl in Hc.
      apply andb_prop in Hc as [-> _]. done.
    + intros H. inversion H as [|? ? Hc Ht]; subst. simpl in Hc.
      apply andb_prop in Hc as [Hc Hh]. rewrite Hc. simpl.
      apply IH. by constructor.
Qed.

(** Without any token the text is made of whitespace and commas. *)
Lemma csv_tokens_nil_chars raw :
  _csv_tokens raw = [] →
  all_chars (λ c, Str.isspace c || Ascii.eqb c ",") raw = true.
Proof.
  intros H. apply split_parts_chars, Forall_forall. intros part Hpart.
  apply StrFacts.strip_empty_iff.
  destruct (Str.strip part) as [|c r] eqn:E; [done|]. exfalso.
  assert (Hin : String c r ∈ _csv_tokens raw).
  { unfold _csv_tokens. apply elem_of_filter_bool. split; [|done].
    rewrite <- E. apply list_elem_of_In, List.in_map. by apply list_elem_of_In. }
  rewrite H in Hin. by apply elem_of_nil in Hin.
Qed.

Lemma csv_tokens_nil_not_all raw :
  _csv_tokens raw = [] → Str.lower (Str.strip raw) ≠ "all".
Proof.
  intros H%csv_tokens_nil_chars Hall.
  apply (StrFacts.all_chars_strip _ raw) in H.
  destruct (Str.strip raw) as [|c r]; [done|].
  simpl in H. apply andb_prop in H as [Hc _].
  injection Hall as Ha _. by apply lower_char_not_a in Hc.
Qed.

Lemma parse_active_days_default raw :
  Str.lower (Str.strip raw) = "" ∨ Str.lower (Str.strip raw) = "all" →
  parse_active_days raw = Ok all_days.
Proof. unfold parse_active_days. by intros [-> | ->]. Qed.

Lemma parse_active_days_listed raw :
  Str.lower (Str.strip raw) ≠ "" → Str.lower (Str.strip raw) ≠ "all" →
  parse_active_days raw
  = match parse_active_days_loop ∅ (_csv_tokens raw) with
    | Ok active_days =>
        if bool_decide (active_days = ∅) then ValueError NO_ACTIVE_DAY_ERROR
        else Ok active_days
    | ValueError msg => ValueError msg
    end.
Proof.
  intros H1 H2. unfold parse_active_days.
  by rewrite (bool_decide_eq_false_2 _ H1), (bool_decide_eq_false_2 _ H2).
Qed.

End ActiveDays.

(** C6 (as amended): [parse_active_days] returns all seven weekdays when the
    input, once stripped of surrounding whitespace, is empty or is ["all"]
    in any letter case.  Otherwise it takes the stripped, non-empty parts
    between commas in order: the first part that is not an integer of
    [0..6] makes it fail with the invalid-weekday message naming that part;
    if all parts are valid it returns the set of their values, unless there
    is no part at all, which fails with the no-active-day message. *)
Theorem parse_active_days_cases (raw : string) :
  (Str.lower (Str.strip raw) = "" ∨ Str.lower (Str.strip raw) = "all" →
     parse_active_days raw = Ok all_days)
  ∧ (Str.lower (Str.strip raw) ≠ "" → Str.lower (Str.strip raw) ≠ "all" →
     let tokens := List.filter nonempty (List.map Str.strip (Str.split "," raw)) in
     (∀ good token rest,
        tokens = (good ++ token :: rest)%list →
        Forall valid_day_token good → ¬ valid_day_token token →
        parse_active_days raw = ValueError (INVALID_WEEKDAY_ERROR token))
     ∧ (Forall valid_day_token tokens → tokens ≠ [] →
        parse_active_days raw
        = Ok (list_to_set (omap weekday_of_token tokens)))
     ∧ (tokens = [] →
        parse_active_days raw = ValueError NO_ACTIVE_DAY_ERROR)).
Proof.
  split; [apply parse_active_days_default|].
  intros H1 H2 tokens. subst tokens.
  rewrite (parse_active_days_listed raw H1 H2).
  fold (_csv_tokens raw). split_and!.
  - intros good token rest Heq Hgood Hbad. rewrite Heq.
    by rewrite parse_active_days_loop_first_invalid.
  - intros Hall Hne. rewrite parse_active_days_loop_valid by done.
    rewrite (right_id_L ∅ (∪)).
    rewrite bool_decide_eq_false_2; [done|].
    destruct Hall as [|t ts [d Hd] _]; [done|].
    simpl. rewrite Hd. intros Hempty.
    apply (not_elem_of_empty (C:=gset Z) d). rewrite <- Hempty.
    apply elem_of_union_l. by apply elem_of_singleton.
  - by intros ->.
Qed.

Lemma parse_active_days_cases_witness :
  parse_active_days " ALL " = Ok all_days
  ∧ parse_active_days "1, x,9" = ValueError (INVALID_WEEKDAY_ERROR "x")
  ∧ parse_active_days "0,2,4" = Ok (list_to_set [0; 2; 4])
  ∧ parse_active_days " , " = ValueError NO_ACTIVE_DAY_ERROR.
Proof.
  split_and!.
  - apply (proj1 (parse_active_days_cases " ALL ")). by right.
  - apply (proj1 (proj2 (parse_active_days_cases "1, x,9") ltac:(done) ltac:(done))
             ["1"] "x" ["9"]).
    + reflexivity.
    + repeat constructor. by eexists.
    + by intros [d Hd].
  - apply (proj1 (proj2 (proj2 (parse_active_days_cases "0,2,4")
                           ltac:(done) ltac:(done)))).
    + repeat constructor; by eexists.
    + done.
  - by apply (proj2 (proj2 (proj2 (parse_active_days_cases " , ")
                              ltac:(done) ltac:(done)))).
Defined.

(** C6 as stated fails on a blank input: [" "] is neither the empty string
    nor ["all"] in any letter case and yields no weekday at all, yet it is
    accepted as all seven weekdays instead of being rejected. *)
Lemma parse_active_days_blank_accepted :
  " " ≠ "" ∧ Str.lower " " ≠ "all"
  ∧ omap weekday_of_token
      (List.filter nonempty (List.map Str.strip (Str.split "," " "))) = []
  ∧ parse_active_days " " = Ok all_days
  ∧ ¬ ∃ msg, parse_active_days " " = ValueError msg.
Proof. split_and!; try done. by intros [msg Hmsg]. Qed.

(** C10: a whitespace-only input gives all seven weekdays, whereas an input
    that has a non-whitespace character but no token (such as [","] or
    [" , "]) fails with the no-active-day message. *)
Theorem parse_active_days_blank_vs_no_token (raw : string) :
  (all_space raw = true → parse_active_days raw = Ok all_days)
  ∧ (all_space raw = false → _csv_tokens raw = [] →
     parse_active_days raw = ValueError NO_ACTIVE_DAY_ERROR)
  ∧ parse_active_days "," = ValueError NO_ACTIVE_DAY_ERROR
  ∧ parse_active_days " , " = ValueError NO_ACTIVE_DAY_ERROR
  ∧ all_days = {[0; 1; 2; 3; 4; 5; 6]}.
Proof.
  split_and!; try done.
  - intros H%StrFacts.strip_empty_iff. apply parse_active_days_default.
    left. by rewrite H.
  - intros Hns Htok. rewrite parse_active_days_listed.
    + by rewrite Htok.
    + rewrite lower_empty, StrFacts.strip_empty_iff. by rewrite Hns.
    + by apply csv_tokens_nil_not_all.
Qed.

Lemma parse_active_days_blank_vs_no_token_witness :
  parse_active_days "   " = Ok all_days
  ∧ parse_active_days " ,, " = ValueError NO_ACTIVE_DAY_ERROR.
Proof.
  split.
  - by apply (proj1 (parse_active_days_blank_vs_no_token "   ")).
  - by apply (proj1 (proj2 (parse_active_days_blank_vs_no_token " ,, "))).
Defined.

(** ** The decision: [resolve_action] *)

Lemma hour_range d : 0 ≤ hour d < 24.
Proof. unfold hour. apply Z.mod_pos_bound. lia. Qed.

Lemma weekday_range d : 0 ≤ weekday d < 7.
Proof. unfold weekday. apply Z.mod_pos_bound. lia. Qed.

(** C1: [resolve_action] returns [stop] whenever the weekday of the instant
    is not an active day, whatever the hour; on an active day it returns
    [start] when the two hours are equal, [start] exactly when
    [start_hour <= hour < end_hour] for a same-day window, and [start]
    exactly when [hour >= start_hour] or [hour < end_hour] for an overnight
    window. *)
Theorem resolve_action_cases (now_local : datetime) (start_hour end_hour : Z)
    (active_days : gset Z) :
  (weekday now_local ∉ active_days →
     resolve_action now_local start_hour end_hour active_days = stop)
  ∧ (weekday now_local ∈ active_days →
     (start_hour = end_hour →
        resolve_action now_local start_hour end_hour active_days = start)
     ∧ (start_hour < end_hour →
        (resolve_action now_local start_hour end_hour active_days = start
         ↔ start_hour ≤ hour now_local < end_hour))
     ∧ (start_hour > end_hour →
        (resolve_action now_local start_hour end_hour active_days = start
         ↔ hour now_local >= start_hour ∨ hour now_local < end_hour))).
Proof.
  unfold resolve_action. split.
  - intros H. by rewrite decide_True.
  - intros H. rewrite decide_False by (intros Hn; by apply Hn).
    split_and!.
    + intros ->. by rewrite Z.eqb_refl.
    + intros Hlt. rewrite (proj2 (Z.eqb_neq _ _)) by lia.
      rewrite (proj2 (Z.ltb_lt _ _)) by lia.
      destruct (start_hour <=? hour now_local) eqn:E1;
        destruct (hour now_local <? end_hour) eqn:E2; simpl;
        split; try done; lia.
    + intros Hgt. rewrite (proj2 (Z.eqb_neq _ _)) by lia.
      rewrite (proj2 (Z.ltb_ge _ _)) by lia.
      destruct (hour now_local >=? start_hour) eqn:E1;
        destruct (hour now_local <? end_hour) eqn:E2; simpl;
        split; try done; lia.
Qed.

Lemma resolve_action_cases_witness :
  resolve_action (sunday_2026_02_08 10) 8 17 {[0]} = stop
  ∧ resolve_action (sunday_2026_02_08 10) 9 9 all_days = start
  ∧ (resolve_action (sunday_2026_02_08 8) 8 17 all_days = start
     ↔ 8 ≤ hour (sunday_2026_02_08 8) < 17)
  ∧ (resolve_action (sunday_2026_02_08 23) 22 6 all_days = start
     ↔ hour (sunday_2026_02_08 23) >= 22 ∨ hour (sunday_2026_02_08 23) < 6).
Proof.
  split_and!.
  - apply (proj1 (resolve_action_cases (sunday_2026_02_08 10) 8 17 {[0]})).
    intros H%elem_of_singleton. by vm_compute in H.
  - refine (proj1 (proj2 (resolve_action_cases
                             (sunday_2026_02_08 10) 9 9 all_days) _) _);
      [by vm_compute | reflexivity].
  - refine (proj1 (proj2 (proj2 (resolve_action_cases
                             (sunday_2026_02_08 8) 8 17 all_days) _)) _);
      [by vm_compute | lia].
  - refine (proj2 (proj2 (proj2 (resolve_action_cases
                             (sunday_2026_02_08 23) 22 6 all_days) _)) _);
      [by vm_compute | lia].
Defined.

(** ** The evaluation instant: [resolve_now] *)

Lemma chop_Z_app body : Str.chop_Z (body ++ "Z") = Some body.
Proof.
  induction body as [|b body IH]; [done|].
  destruct body as [|b' body]; [done|].
  change (String b <$> Str.chop_Z (String b' body ++ "Z") = Some (String b (String b' body))).
  by rewrite IH.
Qed.

Lemma chop_Z_inv s body : Str.chop_Z s = Some body → s = (body ++ "Z")%string.
Proof.
  revert body. induction s as [|c s IH]; intros body; [done|].
  destruct s as [|d s].
  - simpl. destruct (Ascii.eqb_spec c "Z") as [->|Hne]; [|done].
    by intros [= <-].
  - change (Str.chop_Z (String c (String d s)))
      with (String c <$> Str.chop_Z (String d s)).
    destruct (Str.chop_Z (String d s)) as [r|]; [|done].
    intros [= <-]. rewrite (IH r eq_refl). done.
Qed.

Lemma chop_Z_spec s body : Str.chop_Z s = Some body ↔ s = (body ++ "Z")%string.
Proof. split; [apply chop_Z_inv|]. intros ->. apply chop_Z_app. Qed.

Lemma normalize_now_Z raw body :
  Str.strip raw = (body ++ "Z")%string →
  normalize_now raw = (body ++ "+00:00")%string.
Proof.
  intros H%chop_Z_spec. unfold normalize_now. by rewrite H.
Qed.

Lemma normalize_now_other raw :
  (∀ body, Str.strip raw ≠ (body ++ "Z")%string) →
  normalize_now raw = Str.strip raw.
Proof.
  intros H. unfold normalize_now.
  destruct (Str.chop_Z (Str.strip raw)) as [body|] eqn:E; [|done].
  apply chop_Z_spec in E. by destruct (H body).
Qed.

(** C8 (as amended): [resolve_now] strips the override and rewrites a
    final [Z] to [+00:00] before it is parsed; when parsing fails it raises a
    [ValueError] whose message quotes the override as given; a parsed value
    without offset gets the target zone and keeps its wall clock; a parsed
    value with an offset is converted to the wall clock of the target zone
    at the same instant, provided that this instant, read in UTC and in the
    target zone, is a wall clock that a [datetime] can hold (years 1 to
    9999).  With the standard grammar and the zone table of
    Europe/Stockholm, 2026-02-08T10:00:00+00:00 gives local hour 11. *)
Theorem resolve_now_cases (fromisoformat : string → option datetime)
    (clock : Z) (raw : string) (tz : TzInfo) :
  (∀ body, Str.strip raw = (body ++ "Z")%string →
     normalize_now raw = (body ++ "+00:00")%string)
  ∧ ((∀ body, Str.strip raw ≠ (body ++ "Z")%string) →
     normalize_now raw = Str.strip raw)
  ∧ (fromisoformat (normalize_now raw) = None →
     resolve_now fromisoformat clock (Some raw) tz
     = ValueError ("Invalid --now value '" ++ raw
                   ++ "'. Use ISO-8601, e.g. 2026-02-08T15:30:00+01:00.")%string)
  ∧ (∀ c, fromisoformat (normalize_now raw) = Some c → tzinfo c = None →
     ∃ d, resolve_now fromisoformat clock (Some raw) tz = Ok d
          ∧ tzinfo d = Some tz ∧ wall d = wall c
          ∧ hour d = hour c ∧ weekday d = weekday c)
  ∧ (∀ c src, fromisoformat (normalize_now raw) = Some c →
     tzinfo c = Some src →
     in_range (utc_instant src c) = true →
     in_range (fromutc tz (utc_instant src c)) = true →
     ∃ d, resolve_now fromisoformat clock (Some raw) tz = Ok d
          ∧ tzinfo d = Some tz
          ∧ wall d = fromutc tz (utc_instant src c)
          ∧ (coherent tz → utc_instant tz d = utc_instant src c))
  ∧ (∃ d, resolve_now PyLib.fromisoformat clock
            (Some "2026-02-08T10:00:00+00:00") PyLib.Europe_Stockholm = Ok d
          ∧ hour d = 11)
  ∧ (∃ d, resolve_now PyLib.fromisoformat clock
            (Some " 2026-02-08T10:00:00Z ") PyLib.Europe_Stockholm = Ok d
          ∧ hour d = 11).
Proof.
  split_and!.
  - apply normalize_now_Z.
  - apply normalize_now_other.
  - intros H. simpl. by rewrite H.
  - intros c Hc Hnaive. simpl. rewrite Hc, Hnaive. by eexists.
  - intros c src Hc Haware Hutc Hlocal. simpl. rewrite Hc, Haware.
    unfold astimezone. unfold utc_instant in Hutc, Hlocal.
    rewrite Hutc, Hlocal.
    eexists. split_and!; try done.
    intros Hco. unfold utc_instant. simpl. apply Hco.
  - eexists. split; [reflexivity|]. by vm_compute.
  - eexists. split; [reflexivity|]. by vm_compute.
Qed.

Lemma resolve_now_cases_witness :
  normalize_now " 2026-02-08T10:00:00Z " = "2026-02-08T10:00:00+00:00"
  ∧ normalize_now "2026-02-08T10:00:00" = "2026-02-08T10:00:00"
  ∧ resolve_now PyLib.fromisoformat 0 (Some " soon ") PyLib.UTC
    = ValueError
        "Invalid --now value ' soon '. Use ISO-8601, e.g. 2026-02-08T15:30:00+01:00."
  ∧ (∃ d, resolve_now PyLib.fromisoformat 0 (Some "2026-02-08T10:00:00")
            PyLib.Europe_Stockholm = Ok d
          ∧ tzinfo d = Some PyLib.Europe_Stockholm
          ∧ wall d = PyLib.utc_of_civil 2026 2 8 10
          ∧ hour d = 10 ∧ weekday d = 6)
  ∧ (∃ d, resolve_now PyLib.fromisoformat 0 (Some "2026-02-08T10:00:00+02:00")
            (timezone (- US_PER_HOUR)) = Ok d
          ∧ tzinfo d = Some (timezone (- US_PER_HOUR))
          ∧ wall d = PyLib.utc_of_civil 2026 2 8 7
          ∧ utc_instant (timezone (- US_PER_HOUR)) d
            = PyLib.utc_of_civil 2026 2 8 8).
Proof.
  split_and!.
  - by apply (proj1 (resolve_now_cases PyLib.fromisoformat 0
                       " 2026-02-08T10:00:00Z " PyLib.UTC)
                "2026-02-08T10:00:00").
  - apply (proj1 (proj2 (resolve_now_cases PyLib.fromisoformat 0
                           "2026-02-08T10:00:00" PyLib.UTC))).
    intros body H%chop_Z_spec. by vm_compute in H.
  - by apply (proj1 (proj2 (proj2 (resolve_now_cases PyLib.fromisoformat 0
                                     " soon " PyLib.UTC)))).
  - destruct (proj1 (proj2 (proj2 (proj2
        (resolve_now_cases PyLib.fromisoformat 0 "2026-02-08T10:00:00"
           PyLib.Europe_Stockholm))))
        {| wall := PyLib.utc_of_civil 2026 2 8 10; tzinfo := None |}
        ltac:(by vm_compute) eq_refl) as (d & Hd & Htz & Hwall & Hh & Hw).
    exists d. rewrite Hd, Htz, Hwall, Hh, Hw. split_and!; try done.
  - destruct (proj1 (proj2 (proj2 (proj2 (proj2
        (resolve_now_cases PyLib.fromisoformat 0 "2026-02-08T10:00:00+02:00"
           (timezone (- US_PER_HOUR)))))))
        {| wall := PyLib.utc_of_civil 2026 2 8 10;
           tzinfo := Some (timezone (2 * US_PER_HOUR)) |}
        (timezone (2 * US_PER_HOUR))
        ltac:(by vm_compute) eq_refl ltac:(by vm_compute) ltac:(by vm_compute))
      as (d & Hd & Htz & Hwall & Hco).
    exists d. rewrite Hd, Htz, Hwall. split_and!; try done.
    rewrite Hco; [done|]. intros u. simpl. lia.
Defined.

(** C8 as stated fails: the override [0001-01-01T00:00:00+01:00] is
    parsed, carries an offset, and is not converted to UTC: the instant is
    one hour before the first wall clock of a [datetime], [astimezone]
    raises [OverflowError] and [resolve_now] returns nothing. *)
Lemma resolve_now_aware_not_converted :
  PyLib.fromisoformat (normalize_now "0001-01-01T00:00:00+01:00")
    = Some {| wall := MIN_WALL; tzinfo := Some (timezone US_PER_HOUR) |}
  ∧ resolve_now PyLib.fromisoformat 0 (Some "0001-01-01T00:00:00+01:00")
      PyLib.UTC = Uncaught OverflowError
  ∧ ¬ (∃ d, resolve_now PyLib.fromisoformat 0
              (Some "0001-01-01T00:00:00+01:00") PyLib.UTC = Ok d).
Proof.
  assert (E : resolve_now PyLib.fromisoformat 0
                (Some "0001-01-01T00:00:00+01:00") PyLib.UTC
              = Uncaught OverflowError) by (by vm_compute).
  split_and!.
  - by vm_compute.
  - exact E.
  - intros [d Hd]. rewrite E in Hd. discriminate Hd.
Qed.

(** ** The remote directory: lookup of the requested names *)

Section Select.

Implicit Types (listing targets : list App) (names missing : list string).

Lemma by_name_fold_None (m : gmap string App) listing n :
  foldl (λ m app, <[name app := app]> m) m listing !! n = None
  ↔ m !! n = None ∧ n ∉ listed_names listing.
Proof.
  revert m. induction listing as [|app listing IH]; intros m; simpl.
  - split; [|by intros [? _]]. intros H. split; [done|]. by apply not_elem_of_nil.
  - rewrite IH.
    change (listed_names (app :: listing)) with (name app :: listed_names listing).
    rewrite not_elem_of_cons.
    destruct (decide (name app = n)) as [<-|Hne].
    + rewrite lookup_insert_eq. split; [by intros [? _]|]. by intros (_ & ? & _).
    + rewrite lookup_insert_ne by done. split.
      * intros [? ?]. repeat split; [done| |done]. by intros ->.
      * intros (? & _ & ?). by split.
Qed.

(** A requested name is missing exactly when no listed app bears it. *)
Lemma by_name_lookup_None listing n :
  by_name_of listing !! n = None ↔ n ∉ listed_names listing.
Proof.
  unfold by_name_of. rewrite by_name_fold_None, lookup_empty. tauto.
Qed.

Lemma select_target_apps_raises client names :
  apps_list client = None → _select_target_apps client names = None.
Proof. intros Hlist. unfold _select_target_apps. by rewrite Hlist. Qed.

Lemma select_target_apps_fold (by_name : gmap string App) targets missing names :
  foldl (λ '(targets, missing) app_name,
           match by_name !! app_name with
           | None => (targets, (missing ++ [app_name])%list)
           | Some app => ((targets ++ [app])%list, missing)
           end)
        (targets, missing) names
  = ((targets ++ omap (λ n, by_name !! n) names)%list,
     (missing ++ List.filter (λ n, bool_decide (by_name !! n = None)) names)%list).
Proof.
  revert targets missing.
  induction names as [|n names IH]; intros targets missing; simpl.
  - by rewrite !app_nil_r.
  - destruct (by_name !! n) as [app|] eqn:E; rewrite IH; simpl.
    + by rewrite <- app_assoc.
    + by rewrite <- app_assoc.
Qed.

(** The targets are the apps found for the requested names, the missing
    names those without an app, both in the order of the request. *)
Lemma select_target_apps_spec client listing names :
  apps_list client = Some listing →
  _select_target_apps client names
  = Some (omap (λ n, by_name_of listing !! n) names,
          List.filter (λ n, bool_decide (n ∉ listed_names listing)) names).
Proof.
  intros Hlist. unfold _select_target_apps. rewrite Hlist. simpl.
  rewrite select_target_apps_fold. simpl.
  do 2 f_equal. apply List.filter_ext. intros n.
  apply bool_decide_ext, by_name_lookup_None.
Qed.

Lemma omap_length_found listing names :
  length (omap (λ n, by_name_of listing !! n) names)
  = length (List.filter (λ n, bool_decide (n ∈ listed_names listing)) names).
Proof.
  induction names as [|n names IH]; [done|]. simpl.
  destruct (by_name_of listing !! n) as [app|] eqn:E.
  - rewrite bool_decide_eq_true_2; [simpl; f_equal; exact IH|].
    destruct (decide (n ∈ listed_names listing)) as [|Hn]; [done|].
    apply by_name_lookup_None in Hn. congruence.
  - apply by_name_lookup_None in E. by rewrite bool_decide_eq_false_2.
Qed.

End Select.

(** ** The reconciliation loop *)

Section Loop.

Variables (client : Client) (action : Action).

Lemma reconcile_app_terminal dry_run c app log :
  _state_name app ∈ terminal_states action →
  reconcile_app client action dry_run c app log = (c, log).
Proof. intros H. unfold reconcile_app, try_except. by rewrite decide_True. Qed.

Lemma reconcile_app_dry_run c app log :
  _state_name app ∉ terminal_states action →
  reconcile_app client action true c app log
  = ({| failures := failures c; updated := updated c + 1 |}, log).
Proof. intros H. unfold reconcile_app, try_except. by rewrite decide_False. Qed.

Lemma reconcile_app_call c app log :
  _state_name app ∉ terminal_states action →
  reconcile_app client action false c app log
  = (if call_raises client action log (name app)
     then {| failures := failures c + 1; updated := updated c |}
     else {| failures := failures c; updated := updated c + 1 |},
     (log ++ [{| call_action := action; call_app := name app;
                 call_raised := call_raises client action log (name app) |}])%list).
Proof.
  intros H. unfold reconcile_app, try_except. rewrite decide_False by done.
  unfold eff_bind, action_fn. simpl.
  by destruct (call_raises client action log (name app)).
Qed.

Lemma raised_calls_app log1 log2 :
  raised_calls (log1 ++ log2) = raised_calls log1 + raised_calls log2.
Proof.
  unfold raised_calls. rewrite List.filter_app, length_app. lia.
Qed.

(** The whole loop: every pending target is attempted, in order, whatever
    happened to the targets before it. *)
Lemma reconcile_loop_spec dry_run target_apps c log :
  ∃ new,
    snd (reconcile_loop client action dry_run c target_apps log)
    = (log ++ new)%list
    ∧ call_app <$> new
      = (if dry_run then [] else name <$> pending action target_apps)
    ∧ Forall (λ k, call_action k = action) new
    ∧ failures (fst (reconcile_loop client action dry_run c target_apps log))
      = failures c + raised_calls new
    ∧ updated (fst (reconcile_loop client action dry_run c target_apps log))
      = updated c + Z.of_nat (length (pending action target_apps))
        - raised_calls new.
Proof.
  revert c log. induction target_apps as [|app rest IH]; intros c log.
  - exists []. simpl. rewrite app_nil_r. destruct dry_run; split_and!; try done;
      unfold raised_calls; simpl; lia.
  - cbn [reconcile_loop].
    destruct (decide (_state_name app ∈ terminal_states action)) as [Ht|Ht].
    + rewrite reconcile_app_terminal by done.
      destruct (IH c log) as (new & H1 & H2 & H3 & H4 & H5).
      exists new. unfold pending in *. simpl.
      rewrite bool_decide_eq_true_2 by done. simpl. by split_and!.
    + destruct dry_run.
      * rewrite reconcile_app_dry_run by done.
        destruct (IH {| failures := failures c; updated := updated c + 1 |} log)
          as (new & H1 & H2 & H3 & H4 & H5).
        exists new. unfold pending in *. simpl.
        rewrite bool_decide_eq_false_2 by done. simpl in *.
        split_and!; try done. rewrite H5. lia.
      * rewrite reconcile_app_call by done.
        set (r := call_raises client action log (name app)).
        set (k := {| call_action := action; call_app := name app;
                     call_raised := r |}).
        destruct (IH (if r then {| failures := failures c + 1; updated := updated c |}
                      else {| failures := failures c; updated := updated c + 1 |})
                    (log ++ [k])%list)
          as (new & H1 & H2 & H3 & H4 & H5).
        exists (k :: new). unfold pending in *. simpl.
        rewrite bool_decide_eq_false_2 by done. simpl in *.
        rewrite H1, H4, H5, <- app_assoc. simpl.
        change (k :: new) with ([k] ++ new)%list.
        rewrite raised_calls_app.
        split_and!; try done.
        -- by f_equal.
        -- by constructor.
        -- unfold raised_calls at 2. simpl. destruct r; simpl; lia.
        -- unfold raised_calls at 2. simpl. destruct r; simpl; lia.
Qed.

End Loop.

(** ** Runs of [main] *)

Lemma main_resolve_names w args p :
  main_resolve w args = inr p →
  plan_app_names p = parse_app_names (Args.app_names args).
Proof.
  unfold main_resolve. intros H.
  repeat match type of H with
         | match ?x with _ => _ end = _ => destruct x; try discriminate
         end;
    by injection H as <-.
Qed.

(** Unfold [main] up to the listing of the apps. *)
Ltac enter_main Hres Hsdk Hclient Hlist :=
  unfold main, main_reconcile;
  rewrite Hres; unfold outcome_of_sum;
  rewrite Hsdk, Hclient, (select_target_apps_spec _ _ _ Hlist);
  cbn [negb].

Lemma missing_names_nonempty listing requested n :
  n ∈ requested → n ∉ listed_names listing →
  missing_names listing requested ≠ [].
Proof.
  intros Hn Habs Hnil.
  assert (Hin : n ∈ missing_names listing requested).
  { apply elem_of_filter_bool. split; [done|]. by apply bool_decide_eq_true_2. }
  rewrite Hnil in Hin. by apply elem_of_nil in Hin.
Qed.

(** C2 (as amended): when a requested name is absent from the listing and
    [ignore_missing_apps] is off, [main] returns 1 without any transition
    call; the summary has [apps_changed = 0], [apps_evaluated] equal to the
    number of requested names that were found, and lists the missing names
    in the order of the request. *)
Theorem main_missing_apps_abort (w : World) (args : Args.t) (p : Plan)
    (client : Client) (listing : list App) :
  main_resolve w args = inr p →
  sdk_importable w = true →
  new_client w args = Some client →
  apps_list client = Some listing →
  Args.ignore_missing_apps args = false →
  (∃ n, n ∈ parse_app_names (Args.app_names args) ∧ n ∉ listed_names listing) →
  ∃ s,
    main w args = {| exit := Returned 1; summary := Some s;
                     stdout := emit_result (Args.output args) s;
                     calls := [] |}
    ∧ Summary.exit_code s = 1
    ∧ Summary.apps_changed s = 0
    ∧ Summary.failures s = 0
    ∧ Summary.apps_evaluated s
      = Z.of_nat (length (found_names listing (parse_app_names (Args.app_names args))))
    ∧ Summary.missing_apps s
      = missing_names listing (parse_app_names (Args.app_names args))
    ∧ Summary.missing_apps s ≠ [].
Proof.
  intros Hres Hsdk Hclient Hlist Hign (n & Hn & Habs).
  rewrite <- (main_resolve_names w args p Hres) in *.
  enter_main Hres Hsdk Hclient Hlist.
  fold (missing_names listing (plan_app_names p)).
  pose proof (missing_names_nonempty _ _ _ Hn Habs) as Hne.
  rewrite (bool_decide_eq_true_2 _ Hne), Hign. simpl.
  eexists. split; [reflexivity|]. simpl. split_and!; try done.
  by rewrite omap_length_found.
Qed.

Lemma main_missing_apps_abort_witness :
  ∃ s,
    missing_app_run = {| exit := Returned 1; summary := Some s;
                         stdout := [s]; calls := [] |}
    ∧ Summary.exit_code s = 1
    ∧ Summary.apps_changed s = 0
    ∧ Summary.failures s = 0
    ∧ Summary.apps_evaluated s = 1
    ∧ Summary.missing_apps s = ["app-b"]
    ∧ Summary.missing_apps s ≠ [].
Proof.
  assert (E : main_resolve one_app_world (forced_start_args "app-a,app-b" false)
              = inr (forced_start_plan ["app-a"; "app-b"])) by (by vm_compute).
  destruct (main_missing_apps_abort one_app_world
              (forced_start_args "app-a,app-b" false)
              (forced_start_plan ["app-a"; "app-b"])
              (fake_client [app_in_state "app-a" "STOPPED"] [])
              [app_in_state "app-a" "STOPPED"] E eq_refl eq_refl eq_refl eq_refl)
    as (s & Hrun & Hcode & Hchanged & Hfail & Heval & Hmiss & Hne).
  - exists "app-b". split.
    + change (Args.app_names (forced_start_args "app-a,app-b" false))
        with "app-a,app-b".
      assert (parse_app_names "app-a,app-b" = ["app-a"; "app-b"]) as ->
        by (by vm_compute).
      by repeat constructor.
    + apply not_elem_of_cons. split; [done|apply not_elem_of_nil].
  - exists s. by split_and!.
Defined.

(** C2 as stated fails: with [app-a] found and [app-b] missing the summary
    reports one evaluated app, not zero. *)
Lemma main_missing_apps_counts_found :
  exit missing_app_run = Returned 1
  ∧ calls missing_app_run = []
  ∧ Summary.missing_apps <$> summary missing_app_run = Some ["app-b"]
  ∧ Summary.apps_changed <$> summary missing_app_run = Some 0
  ∧ Summary.apps_evaluated <$> summary missing_app_run = Some 1
  ∧ Summary.apps_evaluated <$> summary missing_app_run ≠ Some 0.
Proof. vm_compute. split_and!; done. Qed.

Lemma emit_and_return_consistent action active_days app_names apps_changed
    apps_evaluated args exit_code failures missing_apps now_local log :
  consistent args
    (_emit_and_return action active_days app_names apps_changed apps_evaluated
       args exit_code failures missing_apps now_local log).
Proof. unfold consistent, _emit_and_return. simpl. by eexists. Qed.

Lemma main_consistent w args : consistent args (main w args).
Proof.
  unfold main. destruct (main_resolve w args) as [[msg|p]|e]; [done| |done].
  unfold main_reconcile.
  destruct (sdk_importable w); cbn [negb];
    [|apply emit_and_return_consistent].
  destruct (new_client w args) as [client|];
    [|apply emit_and_return_consistent].
  destruct (_select_target_apps client (plan_app_names p))
    as [[target_apps missing_apps]|];
    [|apply emit_and_return_consistent].
  destruct (bool_decide (missing_apps ≠ []) && negb (Args.ignore_missing_apps args));
    [apply emit_and_return_consistent|].
  destruct (bool_decide (target_apps = []));
    [apply emit_and_return_consistent|].
  destruct (reconcile_loop _ _ _ _ _ _) as [c log].
  apply emit_and_return_consistent.
Qed.

(** C9: whenever [main] returns, the payload it built carries the returned
    code in [exit_code], and what it printed is this payload (JSON output)
    or nothing (text output); hence every printed summary has the exit code
    that [main] returns. *)
Theorem main_exit_code_in_summary (w : World) (args : Args.t) :
  consistent args (main w args)
  ∧ ∀ s, s ∈ stdout (main w args) →
         exit (main w args) = Returned (Summary.exit_code s).
Proof.
  pose proof (main_consistent w args) as H. split; [done|].
  unfold consistent in H. intros s Hs.
  destruct (exit (main w args)) as [msg|e|code].
  - destruct H as [_ H]. rewrite H in Hs. by apply elem_of_nil in Hs.
  - destruct H as [_ H]. rewrite H in Hs. by apply elem_of_nil in Hs.
  - destruct H as (s' & _ & Hout & <-). rewrite Hout in Hs.
    destruct (Args.output args); simpl in Hs.
    + by apply elem_of_nil in Hs.
    + by apply list_elem_of_singleton in Hs as ->.
Qed.

Lemma main_exit_code_in_summary_witness :
  ∃ s, stdout missing_app_run = [s]
       ∧ exit missing_app_run = Returned (Summary.exit_code s)
       ∧ Summary.exit_code s = 1.
Proof.
  eexists. split; [by vm_compute|]. split; [|by vm_compute].
  apply (proj2 (main_exit_code_in_summary one_app_world
                  (forced_start_args "app-a,app-b" false))).
  vm_compute. by constructor.
Defined.

(** C5: once the arguments are accepted, a failure to import the client
    class, to construct the client or to list the apps makes [main] return
    2 with [apps_evaluated = 0] and [apps_changed = 0]; and when no requested
    name is found in the listing, [main] makes no transition call and
    returns 0 if [ignore_missing_apps] is set, else 1. *)
Theorem main_exit_codes (w : World) (args : Args.t) (p : Plan) :
  main_resolve w args = inr p →
  ((sdk_importable w = false
    ∨ (sdk_importable w = true ∧ new_client w args = None)
    ∨ (sdk_importable w = true
       ∧ ∃ client, new_client w args = Some client ∧ apps_list client = None)) →
   ∃ s, main w args = {| exit := Returned 2; summary := Some s;
                         stdout := emit_result (Args.output args) s;
                         calls := [] |}
        ∧ Summary.exit_code s = 2
        ∧ Summary.apps_evaluated s = 0
        ∧ Summary.apps_changed s = 0)
  ∧ (∀ client target_apps missing_apps,
       sdk_importable w = true →
       new_client w args = Some client →
       _select_target_apps client (parse_app_names (Args.app_names args))
         = Some (target_apps, missing_apps) →
       target_apps = [] →
       ∃ s, main w args
            = {| exit := Returned (if Args.ignore_missing_apps args then 0 else 1);
                 summary := Some s;
                 stdout := emit_result (Args.output args) s;
                 calls := [] |}
            ∧ Summary.exit_code s = (if Args.ignore_missing_apps args then 0 else 1)
            ∧ Summary.apps_evaluated s = 0
            ∧ Summary.apps_changed s = 0).
Proof.
  intros Hres. split.
  - unfold main, main_reconcile. rewrite Hres; unfold outcome_of_sum.
    intros [Hsdk | [[Hsdk Hclient] | [Hsdk (client & Hclient & Hlist)]]].
    + rewrite Hsdk. simpl. by eexists.
    + rewrite Hsdk, Hclient. simpl. by eexists.
    + rewrite Hsdk, Hclient, (select_target_apps_raises _ _ Hlist). simpl.
      by eexists.
  - intros client target_apps missing_apps Hsdk Hclient.
    rewrite <- (main_resolve_names w args p Hres).
    unfold main, main_reconcile. rewrite Hres; unfold outcome_of_sum.
    rewrite Hsdk, Hclient.
    intros -> ->. cbn [negb].
    destruct (bool_decide _ && negb (Args.ignore_missing_apps args)) eqn:E.
    + apply andb_prop in E as [_ E]. apply negb_true_iff in E. rewrite E.
      by eexists.
    + simpl. by eexists.
Qed.

Lemma main_exit_codes_witness :
  (∃ s, main no_sdk_world (forced_start_args "app-a" false)
        = {| exit := Returned 2; summary := Some s; stdout := [s]; calls := [] |}
        ∧ Summary.exit_code s = 2
        ∧ Summary.apps_evaluated s = 0
        ∧ Summary.apps_changed s = 0)
  ∧ (∃ s, main one_app_world (forced_start_args "app-b" false)
          = {| exit := Returned 1; summary := Some s; stdout := [s]; calls := [] |}
          ∧ Summary.exit_code s = 1
          ∧ Summary.apps_evaluated s = 0
          ∧ Summary.apps_changed s = 0).
Proof.
  split.
  - assert (E : main_resolve no_sdk_world (forced_start_args "app-a" false)
                = inr (forced_start_plan ["app-a"])) by (by vm_compute).
    apply (proj1 (main_exit_codes no_sdk_world
                    (forced_start_args "app-a" false) _ E)).
    by left.
  - assert (E : main_resolve one_app_world (forced_start_args "app-b" false)
                = inr (forced_start_plan ["app-b"])) by (by vm_compute).
    apply (proj2 (main_exit_codes one_app_world
                    (forced_start_args "app-b" false) _ E)
             (fake_client [app_in_state "app-a" "STOPPED"] [])
             [] ["app-b"] eq_refl eq_refl);
      by vm_compute.
Defined.

(** C4: in a run that reaches the loop, every target that is not in a
    terminal state is attempted, in the order of the request, whatever the
    earlier calls did; the failure count of the summary is the number of
    calls that raised, and [main] returns 1 if there is such a call and 0
    otherwise. *)
Theorem main_failure_isolation (w : World) (args : Args.t) (p : Plan)
    (client : Client) (target_apps : list App) (missing_apps : list string) :
  main_resolve w args = inr p →
  sdk_importable w = true →
  new_client w args = Some client →
  _select_target_apps client (parse_app_names (Args.app_names args))
    = Some (target_apps, missing_apps) →
  target_apps ≠ [] →
  missing_apps = [] ∨ Args.ignore_missing_apps args = true →
  ∃ s log,
    main w args = {| exit := Returned (if decide (raised_calls log = 0) then 0 else 1);
                     summary := Some s;
                     stdout := emit_result (Args.output args) s;
                     calls := log |}
    ∧ call_app <$> log
      = (if Args.dry_run args then []
         else name <$> pending (plan_action p) target_apps)
    ∧ Forall (λ k, call_action k = plan_action p) log
    ∧ Summary.failures s = raised_calls log
    ∧ Summary.exit_code s = (if decide (raised_calls log = 0) then 0 else 1)
    ∧ Summary.apps_changed s
      = Z.of_nat (length (pending (plan_action p) target_apps)) - raised_calls log
    ∧ Summary.apps_evaluated s = Z.of_nat (length target_apps).
Proof.
  intros Hres Hsdk Hclient Hsel Hne Hmiss.
  rewrite <- (main_resolve_names w args p Hres) in Hsel.
  unfold main, main_reconcile. rewrite Hres; unfold outcome_of_sum.
  rewrite Hsdk, Hclient, Hsel.
  cbn [negb].
  replace (bool_decide (missing_apps ≠ []) && negb (Args.ignore_missing_apps args))
    with false.
  2:{ destruct Hmiss as [-> | ->]; [done|]. by rewrite andb_false_r. }
  rewrite (bool_decide_eq_false_2 _ Hne).
  destruct (reconcile_loop_spec client (plan_action p) (Args.dry_run args)
              target_apps {| failures := 0; updated := 0 |} [])
    as (new & H1 & H2 & H3 & H4 & H5).
  destruct (reconcile_loop _ _ _ _ _ _) as [c log].
  simpl in *. subst log.
  assert (Hcode : (if bool_decide (failures c ≠ 0) then 1 else 0)
                  = (if decide (raised_calls new = 0) then 0 else 1)).
  { rewrite H4. destruct (decide (raised_calls new = 0)) as [E|E].
    - by rewrite bool_decide_eq_false_2 by (intros Hn; by apply Hn).
    - by rewrite bool_decide_eq_true_2. }
  eexists _, new. unfold _emit_and_return. rewrite Hcode.
  split; [reflexivity|]. simpl. split_and!; try done; lia.
Qed.

Lemma main_failure_isolation_witness :
  ∃ s log,
    three_apps_run = {| exit := Returned 1; summary := Some s; stdout := [s];
                      calls := log |}
    ∧ call_app <$> log = ["app-a"; "app-b"]
    ∧ call_raised <$> log = [true; false]
    ∧ Summary.failures s = 1
    ∧ Summary.exit_code s = 1
    ∧ Summary.apps_changed s = 1
    ∧ Summary.apps_evaluated s = 3.
Proof.
  assert (E : main_resolve three_apps_world
                (forced_start_args "app-a,app-b,app-c" false)
              = inr (forced_start_plan ["app-a"; "app-b"; "app-c"]))
    by (by vm_compute).
  destruct (main_failure_isolation three_apps_world
              (forced_start_args "app-a,app-b,app-c" false)
              (forced_start_plan ["app-a"; "app-b"; "app-c"])
              (fake_client three_apps ["app-a"]) three_apps [] E
              eq_refl eq_refl)
    as (s & log & Hrun & Hnames & Hact & Hfail & Hcode & Hchanged & Heval).
  - by vm_compute.
  - done.
  - by left.
  - exists s, log. unfold three_apps_run. rewrite Hrun, Hfail, Hcode, Hchanged, Heval.
    assert (Hlog : log = calls three_apps_run) by (unfold three_apps_run; by rewrite Hrun).
    rewrite Hlog. by vm_compute.
Defined.

(** ** One target of the loop *)

Lemma state_name_unknown app :
  compute_status app ≫= state = None → _state_name app = "UNKNOWN".
Proof. unfold _state_name. by intros ->. Qed.

Lemma unknown_not_terminal action : "UNKNOWN" ∉ terminal_states action.
Proof.
  destruct action; unfold terminal_states, RUNNING_STATES, STOPPED_STATES;
    rewrite not_elem_of_union, !not_elem_of_singleton; done.
Qed.

(** C3 (as amended): a target whose upper-cased state name is a terminal
    state of the decision ([ACTIVE], [STARTING] for [start]; [STOPPED],
    [STOPPING] for [stop]) is skipped: no call, no counter changes.  Any
    other target is attempted: in dry-run mode no call is made and it is
    counted as changed; otherwise exactly one transition call is made, and
    the target is counted as changed when the call returns and as failed,
    not as changed, when the call raises.  A target without state has the
    name [UNKNOWN], and a name outside the four terminal names is terminal
    for neither decision. *)
Theorem reconcile_app_cases (client : Client) (action : Action)
    (dry_run : bool) (c : Counters) (app : App) (log : list Call) :
  (_state_name app ∈ terminal_states action →
     reconcile_app client action dry_run c app log = (c, log))
  ∧ (_state_name app ∉ terminal_states action →
     (dry_run = true →
        reconcile_app client action dry_run c app log
        = ({| failures := failures c; updated := updated c + 1 |}, log))
     ∧ (dry_run = false → call_raises client action log (name app) = false →
        reconcile_app client action dry_run c app log
        = ({| failures := failures c; updated := updated c + 1 |},
           (log ++ [{| call_action := action; call_app := name app;
                       call_raised := false |}])%list))
     ∧ (dry_run = false → call_raises client action log (name app) = true →
        reconcile_app client action dry_run c app log
        = ({| failures := failures c + 1; updated := updated c |},
           (log ++ [{| call_action := action; call_app := name app;
                       call_raised := true |}])%list)))
  ∧ terminal_states start = {["ACTIVE"; "STARTING"]}
  ∧ terminal_states stop = {["STOPPED"; "STOPPING"]}
  ∧ (∀ st n, compute_status app ≫= state = Some st →
       state_name_attr st = Some n → _state_name app = Str.upper n)
  ∧ (compute_status app ≫= state = None → _state_name app = "UNKNOWN")
  ∧ (_state_name app ∉ RUNNING_STATES ∪ STOPPED_STATES →
       ∀ decision, _state_name app ∉ terminal_states decision).
Proof.
  split_and!; try done.
  - apply reconcile_app_terminal.
  - intros Hnt. split_and!.
    + intros ->. by apply reconcile_app_dry_run.
    + intros -> Hr. rewrite reconcile_app_call by done. by rewrite Hr.
    + intros -> Hr. rewrite reconcile_app_call by done. by rewrite Hr.
  - intros st n Hst Hn. unfold _state_name. by rewrite Hst, Hn.
  - apply state_name_unknown.
  - intros H decision. rewrite not_elem_of_union in H.
    by destruct decision, H.
Qed.

Lemma reconcile_app_cases_witness :
  reconcile_app failing_client start false {| failures := 0; updated := 0 |}
    (app_in_state "app-c" "active") [] = ({| failures := 0; updated := 0 |}, [])
  ∧ reconcile_app failing_client start true {| failures := 0; updated := 0 |}
      (app_in_state "app-a" "STOPPED") []
    = ({| failures := 0; updated := 1 |}, [])
  ∧ reconcile_app failing_client stop false {| failures := 0; updated := 0 |}
      (app_without_status "app-b") []
    = ({| failures := 0; updated := 1 |},
       [{| call_action := stop; call_app := "app-b"; call_raised := false |}])
  ∧ reconcile_app failing_client start false {| failures := 0; updated := 0 |}
      (app_in_state "app-a" "STOPPED") []
    = ({| failures := 1; updated := 0 |},
       [{| call_action := start; call_app := "app-a"; call_raised := true |}]).
Proof.
  assert (Hstopped : "STOPPED" ∉ terminal_states start).
  { unfold terminal_states, RUNNING_STATES.
    by rewrite not_elem_of_union, !not_elem_of_singleton. }
  split_and!.
  - apply (proj1 (reconcile_app_cases failing_client start false
                    {| failures := 0; updated := 0 |}
                    (app_in_state "app-c" "active") [])).
    change (_state_name (app_in_state "app-c" "active")) with "ACTIVE".
    apply elem_of_union_l. by apply elem_of_singleton.
  - by apply (proj1 (proj1 (proj2 (reconcile_app_cases failing_client start true
                    {| failures := 0; updated := 0 |}
                    (app_in_state "app-a" "STOPPED") [])) Hstopped)).
  - apply (proj1 (proj2 (proj1 (proj2 (reconcile_app_cases failing_client stop false
                    {| failures := 0; updated := 0 |}
                    (app_without_status "app-b") []))
                    (unknown_not_terminal stop)))); reflexivity.
  - apply (proj2 (proj2 (proj1 (proj2 (reconcile_app_cases failing_client start false
                    {| failures := 0; updated := 0 |}
                    (app_in_state "app-a" "STOPPED") []))
                    Hstopped))); reflexivity.
Defined.

(** C3 as stated fails when the transition call raises: the stopped app is
    not in a terminal state of [start], the call is made and raises, and the
    app is counted as failed, not as changed. *)
Lemma reconcile_app_failed_call_not_changed :
  (_state_name (app_in_state "app-a" "STOPPED") ∉ terminal_states start)
  ∧ reconcile_app failing_client start false {| failures := 0; updated := 0 |}
      (app_in_state "app-a" "STOPPED") []
    = ({| failures := 1; updated := 0 |},
       [{| call_action := start; call_app := "app-a"; call_raised := true |}])
  ∧ exit failing_start_run = Returned 1
  ∧ call_app <$> calls failing_start_run = ["app-a"]
  ∧ Summary.apps_changed <$> summary failing_start_run = Some 0
  ∧ Summary.apps_changed <$> summary failing_start_run ≠ Some 1
  ∧ Summary.failures <$> summary failing_start_run = Some 1.
Proof.
  split.
  - change (_state_name (app_in_state "app-a" "STOPPED")) with "STOPPED".
    unfold terminal_states, RUNNING_STATES.
    by rewrite not_elem_of_union, !not_elem_of_singleton.
  - vm_compute. by split_and!.
Qed.

(** * Further properties of the code *)

(** ** Tokens: [_csv_tokens] *)

Lemma split_chars_parts p sep s :
  all_chars (λ c, p c || Ascii.eqb c sep) s = true →
  Forall (λ part, all_chars p part = true) (Str.split sep s).
Proof.
  induction s as [|c s IH]; simpl; [by repeat constructor|].
  intros [Hc Hs]%andb_prop. specialize (IH Hs).
  destruct (Ascii.eqb c sep) eqn:E.
  - by constructor.
  - rewrite orb_false_r in Hc.
    destruct (Str.split sep s) as [|h t].
    + repeat constructor. simpl. by rewrite Hc.
    + inversion IH as [|? ? Hh Ht]; subst. constructor; [|done].
      simpl. by rewrite Hc, Hh.
Qed.

Lemma csv_tokens_blank raw : blank raw = true → _csv_tokens raw = [].
Proof.
  intros H%split_chars_parts. unfold _csv_tokens.
  induction H as [|part parts Hpart _ IH]; [done|]. simpl.
  apply StrFacts.strip_empty_iff in Hpart. by rewrite Hpart.
Qed.

(** X1: every token that [_csv_tokens] yields is stripped of surrounding
    whitespace, is not empty and contains no comma. *)
Theorem csv_tokens_are_clean (raw : string) :
  Forall (λ token, Str.strip token = token ∧ token ≠ ""
                   ∧ free_of "," token = true) (_csv_tokens raw).
Proof. apply csv_tokens_clean. Qed.

(** X2: joining the tokens of a text with commas and tokenising again
    gives the same tokens. *)
Theorem csv_tokens_join_round_trip (raw : string) :
  _csv_tokens (Str.join "," (_csv_tokens raw)) = _csv_tokens raw.
Proof. apply csv_tokens_join, csv_tokens_clean. Qed.

(** X3: [_csv_tokens] yields no token exactly when the text holds nothing
    but whitespace and commas (the empty text included). *)
Theorem csv_tokens_nil_iff_blank (raw : string) :
  _csv_tokens raw = [] ↔ blank raw = true.
Proof. split; [apply csv_tokens_nil_chars|apply csv_tokens_blank]. Qed.

(** ** Names: [parse_app_names] *)

Lemma first_occurrences_nil tokens : first_occurrences tokens = [] ↔ tokens = [].
Proof. by destruct tokens. Qed.

(** X4: [parse_app_names] returns the empty list, which [main] rejects as
    a usage error, exactly when the text holds nothing but whitespace and
    commas; and it never returns more names than there are tokens. *)
Theorem parse_app_names_nil_iff_blank (raw : string) :
  (parse_app_names raw = [] ↔ blank raw = true)
  ∧ (length (parse_app_names raw) ≤ length (_csv_tokens raw))%nat.
Proof.
  rewrite parse_app_names_first_occurrences. split.
  - rewrite first_occurrences_nil. split;
      [apply csv_tokens_nil_chars|apply csv_tokens_blank].
  - apply sublist_length, first_occurrences_sublist.
Qed.

(** ** Weekdays: [parse_active_days] *)

Lemma parse_active_days_loop_range acc tokens s :
  (∀ d, d ∈ acc → 0 ≤ d ≤ 6) →
  parse_active_days_loop acc tokens = Ok s →
  ∀ d, d ∈ s → 0 ≤ d ≤ 6.
Proof.
  revert acc. induction tokens as [|t tokens IH]; intros acc Hacc; simpl.
  - by intros [= <-].
  - destruct (Str.int t) as [day|]; [|done].
    destruct ((day <? 0) || (day >? 6)) eqn:E; [done|].
    apply IH. intros d [->%elem_of_singleton|Hd]%elem_of_union; [lia|].
    by apply Hacc.
Qed.

Lemma parse_active_days_loop_error acc tokens msg :
  parse_active_days_loop acc tokens = ValueError msg →
  ∃ token, token ∈ tokens ∧ ¬ valid_day_token token
           ∧ msg = INVALID_WEEKDAY_ERROR token.
Proof.
  revert acc. induction tokens as [|t tokens IH]; intros acc; simpl; [done|].
  unfold valid_day_token, weekday_of_token.
  destruct (Str.int t) as [day|] eqn:Et.
  - destruct ((day <? 0) || (day >? 6)) eqn:E.
    + intros [= <-]. exists t. split_and!; [by left| |done].
      unfold valid_day_token, weekday_of_token. rewrite Et.
      replace ((0 <=? day) && (day <=? 6)) with false by lia.
      by intros [? ?].
    + intros (token & Hin & Hbad & ->)%IH. exists token.
      split_and!; [by right|done|done].
  - intros [= <-]. exists t. split_and!; [by left| |done].
    unfold valid_day_token, weekday_of_token. rewrite Et. by intros [? ?].
Qed.

Lemma all_days_range d : d ∈ all_days ↔ 0 ≤ d ≤ 6.
Proof.
  unfold all_days. rewrite elem_of_list_to_set.
  rewrite !elem_of_cons, elem_of_nil. lia.
Qed.

Lemma parse_active_days_Ok_range (raw : string) (s : gset Z) :
  parse_active_days raw = Ok s →
  s ≠ ∅ ∧ ∀ d, d ∈ s → 0 ≤ d ≤ 6.
Proof.
  unfold parse_active_days.
  destruct (bool_decide _ || bool_decide _).
  - intros [= <-]. split.
    + intros H. apply (not_elem_of_empty (C:=gset Z) 0). rewrite <- H.
      by apply all_days_range.
    + intros d. by apply all_days_range.
  - destruct (parse_active_days_loop ∅ (_csv_tokens raw)) as [s'|msg] eqn:E;
      [|done].
    destruct (bool_decide (s' = ∅)) eqn:Es; [done|]. intros [= <-].
    split; [by apply bool_decide_eq_false in Es|].
    eapply parse_active_days_loop_range; [|exact E].
    intros d Hd. by apply not_elem_of_empty in Hd.
Qed.

(** X5: a set of weekdays that [parse_active_days] returns is never empty
    and holds only integers of 0..6. *)
Theorem parse_active_days_result_range (raw : string) (s : gset Z) :
  parse_active_days raw = Ok s →
  s ≠ ∅ ∧ ∀ d, d ∈ s → 0 ≤ d ≤ 6.
Proof. apply parse_active_days_Ok_range. Qed.

Lemma parse_active_days_result_range_witness :
  list_to_set [0; 2; 4] ≠ (∅ : gset Z)
  ∧ ∀ d, d ∈ (list_to_set [0; 2; 4] : gset Z) → 0 ≤ d ≤ 6.
Proof.
  apply (parse_active_days_result_range "0, 2,4"). by vm_compute.
Defined.

(** X6: when [parse_active_days] fails, its message is either the
    no-active-day message or the invalid-weekday message quoting a token of
    the input that is not an integer of 0..6. *)
Theorem parse_active_days_errors (raw msg : string) :
  parse_active_days raw = ValueError msg →
  msg = "At least one active day must be configured."
  ∨ ∃ token, token ∈ _csv_tokens raw ∧ ¬ valid_day_token token
             ∧ msg = ("Invalid weekday '" ++ token
                      ++ "'. Expected integers in the range 0..6.")%string.
Proof.
  unfold parse_active_days.
  destruct (bool_decide _ || bool_decide _); [done|].
  destruct (parse_active_days_loop ∅ (_csv_tokens raw)) as [s'|msg'] eqn:E.
  - destruct (bool_decide (s' = ∅)); [|done]. intros [= <-]. by left.
  - intros [= <-]. right. by apply parse_active_days_loop_error in E.
Qed.

Lemma parse_active_days_errors_witness :
  INVALID_WEEKDAY_ERROR "7" = "At least one active day must be configured."
  ∨ ∃ token, token ∈ _csv_tokens "1,7,x" ∧ ¬ valid_day_token token
             ∧ INVALID_WEEKDAY_ERROR "7"
               = ("Invalid weekday '" ++ token
                  ++ "'. Expected integers in the range 0..6.")%string.
Proof.
  apply (parse_active_days_errors "1,7,x"). by vm_compute.
Defined.

(** X7: for inputs that list weekdays, the result does not depend on the
    order of the tokens nor on repetitions: two inputs with the same valid
    tokens give the same set. *)
Theorem parse_active_days_order_insensitive (raw1 raw2 : string) :
  Str.lower (Str.strip raw1) ≠ "" → Str.lower (Str.strip raw1) ≠ "all" →
  Str.lower (Str.strip raw2) ≠ "" → Str.lower (Str.strip raw2) ≠ "all" →
  Forall valid_day_token (_csv_tokens raw1) →
  (∀ token, token ∈ _csv_tokens raw1 ↔ token ∈ _csv_tokens raw2) →
  parse_active_days raw1 = parse_active_days raw2.
Proof.
  intros H1 H1' H2 H2' Hvalid Hsame.
  assert (Hvalid2 : Forall valid_day_token (_csv_tokens raw2)).
  { apply Forall_forall. intros t Ht%Hsame.
    by apply (proj1 (Forall_forall _ _) Hvalid). }
  rewrite !parse_active_days_listed by done.
  rewrite !parse_active_days_loop_valid by done.
  replace (list_to_set (omap weekday_of_token (_csv_tokens raw2)) : gset Z)
    with (list_to_set (omap weekday_of_token (_csv_tokens raw1)) : gset Z);
    [done|].
  apply leibniz_equiv. intros d.
  rewrite !elem_of_list_to_set, !list_elem_of_omap.
  split; intros (t & Ht & Hd); exists t; split; try done; by apply Hsame.
Qed.

Lemma parse_active_days_order_insensitive_witness :
  parse_active_days "0,2, 2,4" = parse_active_days "4,0,2".
Proof.
  apply parse_active_days_order_insensitive; try done.
  - repeat constructor; by eexists.
  - intros token.
    change (_csv_tokens "0,2, 2,4") with ["0"; "2"; "2"; "4"].
    change (_csv_tokens "4,0,2") with ["4"; "0"; "2"].
    rewrite !elem_of_cons, !elem_of_nil. tauto.
Defined.

(** ** Decisions: [resolve_action] *)

(** X8: on an active day, exchanging two different hours turns the window
    into its complement: the decision is [start] for one order exactly when
    it is [stop] for the other. *)
Theorem resolve_action_swap_complement (now_local : datetime)
    (start_hour end_hour : Z) (active_days : gset Z) :
  weekday now_local ∈ active_days →
  start_hour ≠ end_hour →
  (resolve_action now_local start_hour end_hour active_days = start
   ↔ resolve_action now_local end_hour start_hour active_days = stop).
Proof.
  intros Hday Hne. unfold resolve_action.
  destruct (decide (weekday now_local ∉ active_days)) as [Hn|_];
    [by destruct Hn|].
  rewrite (proj2 (Z.eqb_neq start_hour end_hour)) by done.
  rewrite (proj2 (Z.eqb_neq end_hour start_hour)) by done.
  rewrite !Z.geb_leb.
  destruct (Z.ltb_spec start_hour end_hour);
    destruct (Z.ltb_spec end_hour start_hour); try lia;
    destruct (Z.leb_spec start_hour (hour now_local));
    destruct (Z.ltb_spec (hour now_local) end_hour);
    destruct (Z.leb_spec end_hour (hour now_local));
    destruct (Z.ltb_spec (hour now_local) start_hour);
    simpl; try (exfalso; lia); (split; congruence).
Qed.

Lemma resolve_action_swap_complement_witness :
  resolve_action (sunday_2026_02_08 23) 22 6 all_days = start
  ↔ resolve_action (sunday_2026_02_08 23) 6 22 all_days = stop.
Proof.
  apply resolve_action_swap_complement; [by vm_compute|done].
Defined.

(** X9: activating more weekdays never turns a [start] into a [stop]. *)
Theorem resolve_action_more_days (now_local : datetime)
    (start_hour end_hour : Z) (active_days active_days' : gset Z) :
  active_days ⊆ active_days' →
  resolve_action now_local start_hour end_hour active_days = start →
  resolve_action now_local start_hour end_hour active_days' = start.
Proof.
  intros Hsub. unfold resolve_action.
  destruct (decide (weekday now_local ∉ active_days)) as [|Hin]; [done|].
  rewrite decide_False; [done|].
  intros Hn. apply Hn, Hsub. by destruct (decide (weekday now_local ∈ active_days)).
Qed.

Lemma resolve_action_more_days_witness :
  resolve_action (sunday_2026_02_08 10) 8 17 all_days = start.
Proof.
  apply (resolve_action_more_days _ _ _ {[6]}).
  - intros d ->%elem_of_singleton. by apply all_days_range.
  - by vm_compute.
Defined.

Lemma hour_weeks_later weeks d : hour (weeks_later weeks d) = hour d.
Proof.
  unfold hour, weeks_later. simpl.
  replace (wall d + weeks * (7 * US_PER_DAY))
    with (wall d + (weeks * 168) * US_PER_HOUR)
    by (unfold US_PER_DAY; lia).
  rewrite Z.div_add by (unfold US_PER_HOUR, US_PER_SECOND; lia).
  replace (wall d / US_PER_HOUR + weeks * 168)
    with (wall d / US_PER_HOUR + (weeks * 7) * 24) by lia.
  by rewrite Z.mod_add.
Qed.

Lemma weekday_weeks_later weeks d : weekday (weeks_later weeks d) = weekday d.
Proof.
  unfold weekday, weeks_later. simpl.
  replace (wall d + weeks * (7 * US_PER_DAY))
    with (wall d + (weeks * 7) * US_PER_DAY) by lia.
  rewrite Z.div_add
    by (unfold US_PER_DAY, US_PER_HOUR, US_PER_SECOND; lia).
  replace (wall d / US_PER_DAY + weeks * 7 + 3)
    with (wall d / US_PER_DAY + 3 + weeks * 7) by lia.
  by rewrite Z.mod_add.
Qed.

(** X10: the schedule is weekly: the decision for an instant and for the
    same wall clock any number of weeks later or earlier is the same. *)
Theorem resolve_action_weekly (weeks : Z) (now_local : datetime)
    (start_hour end_hour : Z) (active_days : gset Z) :
  resolve_action (weeks_later weeks now_local) start_hour end_hour active_days
  = resolve_action now_local start_hour end_hour active_days.
Proof.
  unfold resolve_action.
  by rewrite hour_weeks_later, weekday_weeks_later.
Qed.

(** ** Instants: [resolve_now] *)

(** X11: whatever the override, an instant that [resolve_now] returns is
    aware and carries the target zone. *)
Theorem resolve_now_aware (fromisoformat : string → option datetime)
    (clock : Z) (now_raw : option string) (tz : TzInfo) (d : datetime) :
  resolve_now fromisoformat clock now_raw tz = Ok d → tzinfo d = Some tz.
Proof.
  unfold resolve_now, outcome_of_res.
  destruct now_raw as [raw|]; [|by intros [= <-]].
  destruct (fromisoformat (normalize_now raw)) as [c|]; [|done].
  destruct (tzinfo c) as [src|]; [|by intros [= <-]].
  unfold astimezone.
  destruct (in_range _); [|done]. destruct (in_range _); [|done].
  by intros [= <-].
Qed.

Lemma resolve_now_aware_witness :
  tzinfo (datetime_now 0 PyLib.Europe_Stockholm) = Some PyLib.Europe_Stockholm.
Proof.
  by apply (resolve_now_aware PyLib.fromisoformat 0 None).
Defined.

Lemma lstrip_app_nonspace x c s :
  Str.isspace c = false →
  Str.lstrip (x ++ String c s) = (Str.lstrip x ++ String c s)%string.
Proof.
  intros Hc. induction x as [|a x IH]; simpl.
  - by rewrite Hc.
  - by destruct (Str.isspace a).
Qed.

Lemma rstrip_app_fixed x s :
  s ≠ "" → Str.rstrip s = s → Str.rstrip (x ++ s) = (x ++ s)%string.
Proof.
  intros Hne Hs. induction x as [|a x IH]; [done|].
  change (String a x ++ s)%string with (String a (x ++ s)).
  cbn [Str.rstrip]. rewrite IH.
  destruct (x ++ s)%string eqn:E; [|done].
  destruct x; [by simpl in E|done].
Qed.

Lemma chop_Z_app_r x s :
  s ≠ "" → Str.chop_Z (x ++ s) = String.append x <$> Str.chop_Z s.
Proof.
  intros Hne. induction x as [|a x IH].
  - change ("" ++ s)%string with s. by destruct (Str.chop_Z s).
  - change (String a x ++ s)%string with (String a (x ++ s)).
    destruct (x ++ s)%string as [|b r] eqn:E.
    + destruct x; [by simpl in E|done].
    + change (Str.chop_Z (String a (String b r)))
        with (String a <$> Str.chop_Z (String b r)).
      rewrite IH. by destruct (Str.chop_Z s).
Qed.

Lemma normalize_now_suffix_Z body :
  normalize_now (body ++ "Z") = (Str.lstrip body ++ "+00:00")%string.
Proof.
  unfold normalize_now, Str.strip.
  rewrite lstrip_app_nonspace by done.
  rewrite rstrip_app_fixed by done.
  by rewrite chop_Z_app.
Qed.

Lemma normalize_now_suffix_offset body :
  normalize_now (body ++ "+00:00") = (Str.lstrip body ++ "+00:00")%string.
Proof.
  unfold normalize_now, Str.strip.
  rewrite lstrip_app_nonspace by done.
  rewrite rstrip_app_fixed by done.
  by rewrite chop_Z_app_r.
Qed.

(** X12: an override ending in [Z] is read exactly like the same text
    ending in [+00:00]: both are accepted or both rejected, and when
    accepted they give the same instant. *)
Theorem resolve_now_Z_is_utc (fromisoformat : string → option datetime)
    (clock : Z) (body : string) (tz : TzInfo) :
  normalize_now (body ++ "Z") = normalize_now (body ++ "+00:00")
  ∧ (∀ d, resolve_now fromisoformat clock (Some (body ++ "Z")%string) tz = Ok d
          ↔ resolve_now fromisoformat clock (Some (body ++ "+00:00")%string) tz
            = Ok d)
  ∧ ((∃ msg, resolve_now fromisoformat clock (Some (body ++ "Z")%string) tz
             = ValueError msg)
     ↔ (∃ msg, resolve_now fromisoformat clock
                 (Some (body ++ "+00:00")%string) tz = ValueError msg)).
Proof.
  assert (H : normalize_now (body ++ "Z") = normalize_now (body ++ "+00:00"))
    by (by rewrite normalize_now_suffix_Z, normalize_now_suffix_offset).
  split; [done|]. unfold resolve_now, outcome_of_res. rewrite H.
  destruct (fromisoformat (normalize_now (body ++ "+00:00"))) as [c|].
  - split; [done|]. destruct (tzinfo c) as [src|]; [|done].
    destruct (astimezone src c tz); [done|]. split; by intros [? ?].
  - split; [done|]. split; intros _; by eexists.
Qed.

(** ** Lifecycle states: [_state_name] *)

Lemma upper_char_idemp c : Str.upper_char (Str.upper_char c) = Str.upper_char c.
Proof. destruct c as [[] [] [] [] [] [] [] []]; reflexivity. Qed.

Lemma upper_idemp s : Str.upper (Str.upper s) = Str.upper s.
Proof.
  unfold Str.upper. induction s as [|c s IH]; [done|].
  simpl. by rewrite upper_char_idemp, IH.
Qed.

(** X13: the state name that the loop compares with the terminal states is
    always in upper case, whatever the listing reports. *)
Theorem state_name_is_upper (app : App) :
  Str.upper (_state_name app) = _state_name app.
Proof.
  unfold _state_name. destruct (compute_status app ≫= state) as [st|]; [|done].
  destruct (state_name_attr st); apply upper_idemp.
Qed.

Lemma strip_prefix_app old x : Str.strip_prefix old (old ++ x) = Some x.
Proof.
  induction old as [|a old IH]; [done|].
  change (String a old ++ x)%string with (String a (old ++ x)).
  simpl. by rewrite Ascii.eqb_refl.
Qed.

Lemma strip_prefix_dot old s :
  free_of "." old = false → free_of "." s = true →
  Str.strip_prefix old s = None.
Proof.
  unfold free_of. revert s. induction old as [|a old IH]; intros s; [done|].
  destruct s as [|b s]; [done|]. simpl.
  intros Hold [Hb Hs]%andb_prop.
  destruct (Ascii.eqb_spec a b) as [->|]; [|done].
  rewrite Hb in Hold. by apply IH.
Qed.

Lemma replace_from_free old new s :
  free_of "." old = false → free_of "." s = true →
  Str.replace_from old new 0 s = s.
Proof.
  intros Hold. induction s as [|c s IH]; [done|]. intros Hs.
  cbn [Str.replace_from]. rewrite (strip_prefix_dot old (String c s)) by done.
  unfold free_of in Hs. simpl in Hs. apply andb_prop in Hs as [_ Hs].
  by rewrite IH.
Qed.

Lemma replace_from_skip old new pre x :
  Str.replace_from old new (String.length pre) (pre ++ x)
  = Str.replace_from old new 0 x.
Proof.
  induction pre as [|a pre IH]; [done|].
  change (String a pre ++ x)%string with (String a (pre ++ x)).
  simpl. exact IH.
Qed.

Lemma replace_prefix a old new x :
  Str.replace (String a old) new (String a old ++ x)
  = (new ++ Str.replace (String a old) new x)%string.
Proof.
  unfold Str.replace.
  change (String a old ++ x)%string with (String a (old ++ x)) at 1.
  cbn [Str.replace_from].
  change (String a (old ++ x)) with (String a old ++ x)%string.
  rewrite strip_prefix_app. simpl. by rewrite replace_from_skip.
Qed.

(** X14: for a state without [name] attribute that prints as
    [ComputeState.NAME], with no dot in [NAME], the state name is [NAME] in
    upper case: the same as for a state whose [name] is [NAME]. *)
Theorem state_name_of_enum_text (app : App) (st : ComputeState) (n : string) :
  compute_status app ≫= state = Some st →
  state_name_attr st = None →
  state_str st = ("ComputeState." ++ n)%string →
  free_of "." n = true →
  _state_name app = Str.upper n
  ∧ _state_name app = _state_name (app_in_state (name app) n).
Proof.
  intros Hst Hattr Hstr Hfree. unfold _state_name at 1 2.
  rewrite Hst, Hattr, Hstr, replace_prefix.
  unfold Str.replace. by rewrite replace_from_free.
Qed.

Lemma state_name_of_enum_text_witness :
  _state_name (app_printing_state "app-a" "ComputeState.Stopping") = "STOPPING"
  ∧ _state_name (app_printing_state "app-a" "ComputeState.Stopping")
    = _state_name (app_in_state "app-a" "Stopping").
Proof.
  by apply (state_name_of_enum_text
              (app_printing_state "app-a" "ComputeState.Stopping")
              {| state_name_attr := None; state_str := "ComputeState.Stopping" |}
              "Stopping").
Defined.

(** ** Targets: [_select_target_apps] *)

Lemma by_name_fold_notin (m : gmap string App) listing n :
  n ∉ listed_names listing →
  foldl (λ m app, <[name app := app]> m) m listing !! n = m !! n.
Proof.
  revert m. induction listing as [|app listing IH]; intros m; [done|].
  change (listed_names (app :: listing)) with (name app :: listed_names listing).
  intros [Hne Hn]%not_elem_of_cons. simpl.
  rewrite IH by done. by rewrite lookup_insert_ne.
Qed.

Lemma by_name_fold_Some (m : gmap string App) listing n app :
  (∀ k a, m !! k = Some a → name a = k) →
  foldl (λ m app, <[name app := app]> m) m listing !! n = Some app →
  name app = n ∧ (m !! n = Some app ∨ app ∈ listing).
Proof.
  revert m. induction listing as [|x listing IH]; intros m Hm; simpl.
  - intros H. split; [by apply Hm|by left].
  - intros H. apply IH in H as [Hname [H|H]].
    + split; [done|]. destruct (decide (name x = n)) as [<-|Hne].
      * rewrite lookup_insert_eq in H. injection H as <-. right. by left.
      * rewrite lookup_insert_ne in H by done. by left.
    + split; [done|]. right. by right.
    + intros k a. destruct (decide (name x = k)) as [<-|Hne].
      * rewrite lookup_insert_eq. by intros [= <-].
      * rewrite lookup_insert_ne by done. apply Hm.
Qed.

Lemma by_name_lookup_Some listing n app :
  by_name_of listing !! n = Some app → name app = n ∧ app ∈ listing.
Proof.
  intros H. apply by_name_fold_Some in H as [Hname [H|H]]; try done.
Qed.

Lemma found_targets_names listing names :
  name <$> omap (λ n, by_name_of listing !! n) names = found_names listing names.
Proof.
  unfold found_names. induction names as [|n names IH]; [done|]. simpl.
  destruct (by_name_of listing !! n) as [app|] eqn:E.
  - rewrite bool_decide_eq_true_2.
    + simpl. f_equal; [|exact IH]. by apply by_name_lookup_Some in E as [-> _].
    + destruct (decide (n ∈ listed_names listing)) as [|Hn]; [done|].
      apply by_name_lookup_None in Hn. congruence.
  - apply by_name_lookup_None in E. by rewrite bool_decide_eq_false_2.
Qed.

Lemma found_missing_length listing names :
  (length (found_names listing names) + length (missing_names listing names)
   = length names)%nat.
Proof.
  unfold found_names, missing_names.
  induction names as [|n names IH]; [done|]. simpl.
  destruct (decide (n ∈ listed_names listing)) as [Hn|Hn].
  - rewrite bool_decide_eq_true_2 by done.
    rewrite bool_decide_eq_false_2 by (intros H; by apply H). simpl. lia.
  - rewrite bool_decide_eq_false_2 by done.
    rewrite bool_decide_eq_true_2 by done. simpl. lia.
Qed.

(** X15: [_select_target_apps] splits the request in two, keeping its
    order: the targets are apps of the listing, one for each requested name
    that the listing knows, and the missing names are the requested names
    that the listing does not know; no name is lost or counted twice. *)
Theorem select_target_apps_partition (client : Client) (listing : list App)
    (app_names : list string) (targets : list App) (missing : list string) :
  apps_list client = Some listing →
  _select_target_apps client app_names = Some (targets, missing) →
  name <$> targets
    = List.filter (λ n, bool_decide (n ∈ listed_names listing)) app_names
  ∧ missing
    = List.filter (λ n, bool_decide (n ∉ listed_names listing)) app_names
  ∧ Forall (λ app, app ∈ listing) targets
  ∧ (length targets + length missing = length app_names)%nat.
Proof.
  intros Hlist. rewrite (select_target_apps_spec _ _ _ Hlist).
  intros [= <- <-]. split_and!.
  - apply found_targets_names.
  - done.
  - apply Forall_forall. intros app (n & _ & Hn)%list_elem_of_omap.
    by apply by_name_lookup_Some in Hn as [_ ?].
  - rewrite <- (found_missing_length listing app_names).
    rewrite <- found_targets_names. by rewrite length_fmap.
Qed.

Lemma select_target_apps_partition_witness :
  name <$> [app_in_state "app-b" "Stopped"]
    = List.filter (λ n, bool_decide (n ∈ listed_names three_apps)) ["x"; "app-b"]
  ∧ ["x"]
    = List.filter (λ n, bool_decide (n ∉ listed_names three_apps)) ["x"; "app-b"]
  ∧ Forall (λ app, app ∈ three_apps) [app_in_state "app-b" "Stopped"]
  ∧ (length [app_in_state "app-b" "Stopped"] + length ["x"]
     = length ["x"; "app-b"])%nat.
Proof.
  apply (select_target_apps_partition (fake_client three_apps [])); [done|].
  by vm_compute.
Defined.

(** X16: when the listing has several apps of one name, the last of them is
    the target. *)
Theorem select_target_apps_last_wins (client : Client)
    (before after : list App) (app : App) :
  apps_list client = Some (before ++ app :: after)%list →
  name app ∉ listed_names after →
  _select_target_apps client [name app] = Some ([app], []).
Proof.
  intros Hlist Hafter. unfold _select_target_apps. rewrite Hlist. simpl.
  assert (H : by_name_of (before ++ app :: after) !! name app = Some app).
  { unfold by_name_of. rewrite foldl_app. simpl.
    rewrite by_name_fold_notin by done. apply lookup_insert_eq. }
  by rewrite H.
Qed.

Lemma select_target_apps_last_wins_witness :
  _select_target_apps
    (fake_client [app_in_state "app-a" "STOPPED"; app_in_state "app-a" "ACTIVE";
                  app_in_state "app-b" "ACTIVE"] [])
    ["app-a"]
  = Some ([app_in_state "app-a" "ACTIVE"], []).
Proof.
  apply (select_target_apps_last_wins _ [app_in_state "app-a" "STOPPED"]
           [app_in_state "app-b" "ACTIVE"] (app_in_state "app-a" "ACTIVE"));
    [done|].
  apply not_elem_of_cons. split; [done|apply not_elem_of_nil].
Defined.

(** ** Every run of [main] *)

Lemma omap_nil_found listing names :
  omap (λ n, by_name_of listing !! n) names = [] ↔ found_names listing names = [].
Proof.
  rewrite <- found_targets_names. split; [by intros ->|].
  by intros H%fmap_nil_inv.
Qed.

(** How [main] ends after accepting its arguments. *)
Lemma main_reconcile_ending w args p : Ending w args p (main_reconcile w args p).
Proof.
  unfold main_reconcile.
  destruct (sdk_importable w) eqn:Hsdk; cbn [negb];
    [|apply ending_unreachable; by left].
  destruct (new_client w args) as [client|] eqn:Hclient;
    [|apply ending_unreachable; right; by left].
  destruct (apps_list client) as [listing|] eqn:Hlist.
  2:{ rewrite (select_target_apps_raises _ _ Hlist).
      apply ending_unreachable. right. right. split; [done|]. by exists client. }
  rewrite (select_target_apps_spec _ _ _ Hlist).
  fold (missing_names listing (plan_app_names p)).
  set (missing := missing_names listing (plan_app_names p)).
  set (targets := omap (λ n, by_name_of listing !! n) (plan_app_names p)).
  destruct (decide (missing ≠ [] ∧ Args.ignore_missing_apps args = false))
    as [[Hm Hi]|Hno].
  - rewrite (bool_decide_eq_true_2 _ Hm), Hi. cbn [andb negb].
    subst targets. rewrite omap_length_found. by eapply ending_missing.
  - assert (Hor : missing = [] ∨ Args.ignore_missing_apps args = true).
    { destruct (decide (missing = [])); [by left|]. right.
      destruct (Args.ignore_missing_apps args); [done|]. by destruct Hno. }
    assert (Hcond : bool_decide (missing ≠ [])
                    && negb (Args.ignore_missing_apps args) = false).
    { destruct Hor as [Hor|Hor]; rewrite Hor; [done|apply andb_false_r]. }
    rewrite Hcond.
    destruct (decide (targets = [])) as [Hnil|Hnil].
    + rewrite (bool_decide_eq_true_2 _ Hnil).
      eapply ending_no_target; eauto. by apply omap_nil_found.
    + rewrite (bool_decide_eq_false_2 _ Hnil).
      destruct (reconcile_loop _ _ _ _ _ _) as [c log] eqn:Hloop.
      by eapply ending_loop.
Qed.

Lemma reconcile_loop_facts client action dry_run target_apps c log :
  reconcile_loop client action dry_run {| failures := 0; updated := 0 |}
    target_apps [] = (c, log) →
  call_app <$> log
    = (if dry_run then [] else name <$> pending action target_apps)
  ∧ Forall (λ k, call_action k = action) log
  ∧ failures c = raised_calls log
  ∧ updated c = Z.of_nat (length (pending action target_apps)) - raised_calls log.
Proof.
  intros Hloop.
  destruct (reconcile_loop_spec client action dry_run target_apps
              {| failures := 0; updated := 0 |} [])
    as (new & H1 & H2 & H3 & H4 & H5).
  rewrite Hloop in *. simpl in *. subst log. split_and!; try done; lia.
Qed.

Lemma raised_calls_bounds log : 0 ≤ raised_calls log ≤ Z.of_nat (length log).
Proof.
  unfold raised_calls. split; [lia|].
  apply inj_le, sublist_length, sublist_filter_bool.
Qed.

Lemma raised_calls_zero log :
  raised_calls log = 0 → Forall (λ k, call_raised k = false) log.
Proof.
  unfold raised_calls. induction log as [|k log IH]; [by constructor|].
  simpl. destruct (call_raised k) eqn:E; simpl; [lia|].
  intros H. constructor; [done|]. by apply IH.
Qed.

Lemma main_ending w args :
  (∃ msg, main w args = parser_error msg)
  ∨ (∃ e, main w args = traceback e)
  ∨ (∃ p, main_resolve w args = inr p ∧ Ending w args p (main w args)).
Proof.
  unfold main. destruct (main_resolve w args) as [[msg|p]|e] eqn:E.
  - left. by exists msg.
  - right. right. exists p. split; [done|]. apply main_reconcile_ending.
  - right. left. by exists e.
Qed.

(** X17: in dry-run mode [main] never makes a transition call, whatever
    the arguments and whatever the remote directory holds. *)
Theorem main_dry_run_no_call (w : World) (args : Args.t) :
  Args.dry_run args = true → calls (main w args) = [].
Proof.
  intros Hdry. destruct (main_ending w args) as [[msg ->]|[[e ->]|(p & _ & H)]];
    [done|done|].
  destruct H as [| | |client listing target_apps c log _ _ _ _ _ _ Hloop];
    try done.
  apply reconcile_loop_facts in Hloop as (Hnames & _). rewrite Hdry in Hnames.
  simpl. by apply fmap_nil_inv in Hnames.
Qed.

Lemma main_dry_run_no_call_witness :
  calls (main three_apps_world (forced_start_args "app-a,app-b,app-c" true)) = [].
Proof. by apply main_dry_run_no_call. Defined.

Lemma pending_nil_all_terminal action target_apps :
  Forall (λ app, _state_name app ∈ terminal_states action) target_apps →
  pending action target_apps = [].
Proof.
  unfold pending. induction 1 as [|app apps Happ _ IH]; [done|]. simpl.
  by rewrite (bool_decide_eq_true_2 _ Happ).
Qed.

Lemma targets_in_listing (listing : list App) (names : list string) app :
  app ∈ omap (λ n, by_name_of listing !! n) names →
  ∃ n, n ∈ names ∧ name app = n ∧ app ∈ listing.
Proof.
  intros (n & Hn & Hlook)%list_elem_of_omap.
  apply by_name_lookup_Some in Hlook as [? ?]. by exists n.
Qed.

(** X18: a run on a listing whose apps are all in a terminal state of the
    decision changes nothing: no call, no change and no failure are
    reported and the exit code is 0.  (Hence running twice in a row, with
    every app already as decided, leaves both reports at zero changes.) *)
Theorem main_all_terminal_noop (w : World) (args : Args.t) (p : Plan)
    (client : Client) (listing : list App) :
  main_resolve w args = inr p →
  sdk_importable w = true →
  new_client w args = Some client →
  apps_list client = Some listing →
  missing_names listing (parse_app_names (Args.app_names args)) = []
  ∨ Args.ignore_missing_apps args = true →
  found_names listing (parse_app_names (Args.app_names args)) ≠ [] →
  Forall (λ app, _state_name app ∈ terminal_states (plan_action p)) listing →
  ∃ s, main w args = {| exit := Returned 0; summary := Some s;
                        stdout := emit_result (Args.output args) s;
                        calls := [] |}
       ∧ Summary.apps_changed s = 0
       ∧ Summary.failures s = 0
       ∧ Summary.apps_evaluated s
         = Z.of_nat (length (found_names listing
                               (parse_app_names (Args.app_names args)))).
Proof.
  intros Hres Hsdk Hclient Hlist Hor Hfound Hterm.
  rewrite <- (main_resolve_names w args p Hres) in *.
  unfold main. rewrite Hres; unfold outcome_of_sum.
  destruct (main_reconcile_ending w args p)
    as [Hbad|client' listing' _ Hc Hl Hm Hi|client' listing' _ Hc Hl _ Hnil
       |client' listing' target_apps c log _ Hc Hl _ Htargets _ Hloop].
  - destruct Hbad as [?|[[_ ?]|(_ & client' & ? & ?)]]; congruence.
  - assert (listing' = listing) as -> by congruence.
    destruct Hor; congruence.
  - assert (listing' = listing) as -> by congruence. done.
  - assert (client' = client) as -> by congruence.
    assert (listing' = listing) as -> by congruence.
    apply reconcile_loop_facts in Hloop as (Hnames & _ & Hfail & Hupd).
    subst target_apps.
    rewrite pending_nil_all_terminal in Hnames, Hupd.
    2,3: apply Forall_forall; intros app (n & _ & _ & Hin)%targets_in_listing;
           by apply (proj1 (Forall_forall _ _) Hterm).
    assert (log = []) as ->.
    { apply (fmap_nil_inv call_app). by destruct (Args.dry_run args). }
    change (raised_calls []) with 0 in *. simpl in Hupd.
    unfold _emit_and_return. rewrite Hfail, Hupd. simpl.
    eexists. split; [reflexivity|]. simpl. split_and!; try done.
    by rewrite omap_length_found.
Qed.

Lemma main_all_terminal_noop_witness :
  ∃ s, active_app_run = {| exit := Returned 0; summary := Some s;
                           stdout := [s]; calls := [] |}
       ∧ Summary.apps_changed s = 0
       ∧ Summary.failures s = 0
       ∧ Summary.apps_evaluated s = 1.
Proof.
  assert (E : main_resolve (fake_world (fake_client [app_in_state "app-a" "active"] []))
                (forced_start_args "app-a" false)
              = inr (forced_start_plan ["app-a"])) by (by vm_compute).
  apply (main_all_terminal_noop _ _ _
           (fake_client [app_in_state "app-a" "active"] [])
           [app_in_state "app-a" "active"] E); try done.
  - by left.
  - constructor; [|constructor].
    change (_state_name (app_in_state "app-a" "active")) with "ACTIVE".
    apply elem_of_union_l. by apply elem_of_singleton.
Defined.

Lemma elem_of_pending action target_apps app :
  app ∈ pending action target_apps
  ↔ app ∈ target_apps ∧ _state_name app ∉ terminal_states action.
Proof.
  unfold pending. rewrite elem_of_filter_bool, negb_true_iff.
  by rewrite bool_decide_eq_false.
Qed.

(** X19: [main] only calls the remote directory for an app that was
    requested, that the listing holds under this name, and whose state is
    not a terminal state of the action of the call; the action is the one
    decided for the run, and a dry run makes no call. *)
Theorem main_calls_are_warranted (w : World) (args : Args.t) (k : Call) :
  k ∈ calls (main w args) →
  Args.dry_run args = false
  ∧ call_app k ∈ parse_app_names (Args.app_names args)
  ∧ ∃ p client listing app,
      main_resolve w args = inr p
      ∧ new_client w args = Some client
      ∧ apps_list client = Some listing
      ∧ call_action k = plan_action p
      ∧ app ∈ listing
      ∧ name app = call_app k
      ∧ _state_name app ∉ terminal_states (call_action k).
Proof.
  destruct (main_ending w args) as [[msg ->]|[[e ->]|(p & Hres & H)]];
    [by intros ?%elem_of_nil|by intros ?%elem_of_nil|].
  destruct H as [| | |client listing target_apps c log _ Hclient Hlist _ -> _ Hloop];
    try by intros ?%elem_of_nil.
  simpl. intros Hk.
  apply reconcile_loop_facts in Hloop as (Hnames & Hact & _ & _).
  assert (Hka : call_action k = plan_action p)
    by (by apply (proj1 (Forall_forall _ _) Hact)).
  assert (Hin : call_app k ∈ call_app <$> log) by (by apply list_elem_of_fmap_2).
  rewrite Hnames in Hin.
  destruct (Args.dry_run args); [by apply elem_of_nil in Hin|].
  apply list_elem_of_fmap in Hin as (app & Hname & Happ).
  apply elem_of_pending in Happ as [Happ Hstate].
  apply targets_in_listing in Happ as (n & Hn & Hnn & Hlisted).
  rewrite <- (main_resolve_names w args p Hres).
  split; [done|]. split; [congruence|].
  exists p, client, listing, app. rewrite Hka. by split_and!.
Qed.

Lemma main_calls_are_warranted_witness :
  Args.dry_run (forced_start_args "app-a,app-b,app-c" false) = false
  ∧ "app-b" ∈ parse_app_names "app-a,app-b,app-c"
  ∧ ∃ p client listing app,
      main_resolve three_apps_world (forced_start_args "app-a,app-b,app-c" false)
      = inr p
      ∧ new_client three_apps_world (forced_start_args "app-a,app-b,app-c" false)
        = Some client
      ∧ apps_list client = Some listing
      ∧ start = plan_action p
      ∧ app ∈ listing
      ∧ name app = "app-b"
      ∧ _state_name app ∉ terminal_states start.
Proof.
  apply (main_calls_are_warranted three_apps_world
           (forced_start_args "app-a,app-b,app-c" false)
           {| call_action := start; call_app := "app-b"; call_raised := false |}).
  assert (calls (main three_apps_world
                   (forced_start_args "app-a,app-b,app-c" false))
          = [{| call_action := start; call_app := "app-a"; call_raised := true |};
             {| call_action := start; call_app := "app-b"; call_raised := false |}])
    as -> by (by vm_compute).
  by repeat constructor.
Defined.

Lemma parse_app_names_NoDup raw : NoDup (parse_app_names raw).
Proof.
  rewrite parse_app_names_first_occurrences. apply NoDup_first_occurrences.
Qed.

(** X20: in one run no app is called twice. *)
Theorem main_calls_once (w : World) (args : Args.t) :
  NoDup (call_app <$> calls (main w args)).
Proof.
  destruct (main_ending w args) as [[msg ->]|[[e ->]|(p & Hres & H)]];
    [by constructor|by constructor|].
  destruct H as [| | |client listing target_apps c log _ _ _ _ -> _ Hloop];
    try by constructor.
  simpl. apply reconcile_loop_facts in Hloop as (-> & _).
  destruct (Args.dry_run args); [by constructor|].
  eapply sublist_NoDup.
  2:{ apply fmap_sublist. unfold pending. apply sublist_filter_bool. }
  rewrite found_targets_names. apply NoDup_filter_bool.
  rewrite (main_resolve_names w args p Hres). apply parse_app_names_NoDup.
Qed.

(** ** The report of every run *)

Lemma main_resolve_plan w args p :
  main_resolve w args = inr p →
  plan_app_names p = parse_app_names (Args.app_names args)
  ∧ plan_app_names p ≠ []
  ∧ (0 ≤ Args.start_hour args ≤ 23) ∧ (0 ≤ Args.end_hour args ≤ 23)
  ∧ (∃ tz, ZoneInfo w (Args.timezone args) = Some tz
           ∧ resolve_now (fromisoformat w) (clock w) (Args.now args) tz
             = Ok (plan_now_local p))
  ∧ match Args.action args with
    | auto =>
        ∃ days, parse_active_days (Args.active_days args) = Ok days
                ∧ plan_active_days p = Some days
                ∧ plan_action p
                  = resolve_action (plan_now_local p) (Args.start_hour args)
                      (Args.end_hour args) days
    | force a => plan_active_days p = None ∧ plan_action p = a
    end.
Proof.
  unfold main_resolve, _validate_hour.
  destruct (Z.leb_spec 0 (Args.start_hour args));
    destruct (Z.leb_spec (Args.start_hour args) 23); simpl; try done.
  destruct (Z.leb_spec 0 (Args.end_hour args));
    destruct (Z.leb_spec (Args.end_hour args) 23); simpl; try done.
  destruct (parse_app_names (Args.app_names args)) as [|n names] eqn:En;
    [done|].
  destruct (ZoneInfo w (Args.timezone args)) as [[tz|]|e] eqn:Etz;
    [|done|done].
  destruct (resolve_now _ _ _ tz) as [[now_local|]|e] eqn:Enow; [|done|done].
  destruct (Args.action args) as [|a].
  - destruct (parse_active_days (Args.active_days args)) as [days|] eqn:Ed;
      [|done].
    intros [= <-]. simpl. split_and!; try done; try lia.
    + by exists tz.
    + by exists days.
  - intros [= <-]. simpl. split_and!; try done; try lia. by exists tz.
Qed.

Lemma ending_summary w args p r :
  Ending w args p r →
  ∃ changed evaluated code fails missing log,
    r = _emit_and_return (plan_action p) (plan_active_days p)
          (plan_app_names p) changed evaluated args code fails missing
          (plan_now_local p) log.
Proof. destruct 1; by repeat eexists. Qed.

(** X21: the report of a run tells the decision it acted on: it echoes the
    configuration and the parsed names, its local time is the instant that
    [resolve_now] gave for the configured zone, and its action is the
    forced action, or in [auto] mode the decision of [resolve_action] for
    this local time, the reported hours and the parsed weekdays, which it
    lists in increasing order. *)
Theorem main_summary_reports_decision (w : World) (args : Args.t)
    (s : Summary.t) :
  summary (main w args) = Some s →
  Summary.action_mode s = Args.action args
  ∧ Summary.start_hour s = Args.start_hour args
  ∧ Summary.end_hour s = Args.end_hour args
  ∧ Summary.timezone s = Args.timezone args
  ∧ Summary.dry_run s = Args.dry_run args
  ∧ Summary.output s = Args.output args
  ∧ Summary.apps_requested s = parse_app_names (Args.app_names args)
  ∧ (∃ tz, ZoneInfo w (Args.timezone args) = Some tz
           ∧ resolve_now (fromisoformat w) (clock w) (Args.now args) tz
             = Ok (Summary.time_local s))
  ∧ match Args.action args with
    | auto =>
        ∃ days, parse_active_days (Args.active_days args) = Ok days
                ∧ Summary.active_days s = Some (sorted days)
                ∧ Summary.action s
                  = resolve_action (Summary.time_local s)
                      (Summary.start_hour s) (Summary.end_hour s) days
    | force a => Summary.active_days s = None ∧ Summary.action s = a
    end.
Proof.
  destruct (main_ending w args) as [[msg ->]|[[e ->]|(p & Hres & H)]];
    [done|done|].
  apply ending_summary in H
    as (changed & evaluated & code & fails & missing & log & ->).
  simpl. intros [= <-]. simpl.
  destruct (main_resolve_plan w args p Hres)
    as (Hnames & _ & _ & _ & Hnow & Hact).
  split_and!; try done.
  destruct (Args.action args) as [|a].
  - destruct Hact as (days & Hd & Hdays & Haction). exists days.
    by rewrite Hdays.
  - destruct Hact as [-> ->]. done.
Qed.

Lemma main_summary_reports_decision_witness :
  ∃ s, summary missing_app_run = Some s
       ∧ Summary.action_mode s = force start
       ∧ Summary.apps_requested s = ["app-a"; "app-b"]
       ∧ Summary.active_days s = None
       ∧ Summary.action s = start.
Proof.
  eexists. split; [by vm_compute|].
  destruct (main_summary_reports_decision one_app_world
              (forced_start_args "app-a,app-b" false) _ eq_refl)
    as (Hmode & _ & _ & _ & _ & _ & Hreq & _ & Hdays & Haction).
  split_and!; try done.
Defined.

Lemma StronglySorted_le_NoDup_lt (l : list Z) :
  StronglySorted Z.le l → NoDup l → StronglySorted Z.lt l.
Proof.
  induction 1 as [|x l Hl IH Hx]; [constructor|].
  intros [Hnotin Hnodup]%NoDup_cons. constructor; [by apply IH|].
  apply Forall_forall. intros y Hy.
  pose proof (proj1 (Forall_forall _ _) Hx y Hy).
  assert (x ≠ y) by (by intros ->). lia.
Qed.

Lemma sorted_spec (s : gset Z) :
  StronglySorted Z.lt (sorted s) ∧ ∀ d, d ∈ sorted s ↔ d ∈ s.
Proof.
  unfold sorted. split.
  - apply StronglySorted_le_NoDup_lt.
    + apply (StronglySorted_merge_sort Z.le).
    + rewrite merge_sort_Permutation. apply NoDup_elements.
  - intros d. by rewrite merge_sort_Permutation, elem_of_elements.
Qed.

(** X22: when the report lists the active weekdays, the list is strictly
    increasing, not empty, and holds only integers of 0..6. *)
Theorem main_summary_active_days (w : World) (args : Args.t)
    (s : Summary.t) (days : list Z) :
  summary (main w args) = Some s →
  Summary.active_days s = Some days →
  StronglySorted Z.lt days ∧ days ≠ [] ∧ ∀ d, d ∈ days → 0 ≤ d ≤ 6.
Proof.
  destruct (main_ending w args) as [[msg ->]|[[e ->]|(p & Hres & H)]];
    [done|done|].
  apply ending_summary in H
    as (changed & evaluated & code & fails & missing & log & ->).
  simpl. intros [= <-]. simpl.
  destruct (main_resolve_plan w args p Hres) as (_ & _ & _ & _ & _ & Hact).
  destruct (Args.action args) as [|a].
  - destruct Hact as (set & Hset%parse_active_days_Ok_range & -> & _).
    simpl. intros [= <-]. destruct Hset as [Hne Hrange].
    destruct (sorted_spec set) as [Hsorted Hsame]. split_and!; [done| |].
    + intros Hnil. apply Hne. apply leibniz_equiv. intros d.
      rewrite <- Hsame, Hnil. split; [by intros ?%elem_of_nil|].
      by intros ?%not_elem_of_empty.
    + intros d Hd%Hsame. by apply Hrange.
  - by destruct Hact as [-> _].
Qed.

Lemma main_summary_active_days_witness :
  StronglySorted Z.lt [0; 6] ∧ [0; 6] ≠ [] ∧ ∀ d, d ∈ [0; 6] → 0 ≤ d ≤ 6.
Proof.
  destruct (summary (main one_app_world (auto_args "app-a" "6, 0,6")))
    as [s|] eqn:E; [|by vm_compute in E].
  apply (main_summary_active_days _ _ s _ E).
  vm_compute in E. by injection E as <-.
Defined.

Lemma missing_names_requested listing names n :
  n ∈ missing_names listing names → n ∈ names.
Proof. unfold missing_names. rewrite elem_of_filter_bool. by intros [? _]. Qed.

Lemma pending_length action target_apps :
  (length (pending action target_apps) ≤ length target_apps)%nat.
Proof. apply sublist_length, sublist_filter_bool. Qed.

(** X23: the counters of every report are consistent: the number of
    changed apps lies between 0 and the number of evaluated apps; evaluated
    apps and missing names together never exceed the requested names, and
    every missing name was requested; the failure count is not negative;
    the exit code is 0, 1 or 2, and it is 0 only without failure. *)
Theorem main_summary_bounds (w : World) (args : Args.t) (s : Summary.t) :
  summary (main w args) = Some s →
  0 ≤ Summary.apps_changed s ≤ Summary.apps_evaluated s
  ∧ Summary.apps_evaluated s + Z.of_nat (length (Summary.missing_apps s))
    ≤ Z.of_nat (length (Summary.apps_requested s))
  ∧ (∀ n, n ∈ Summary.missing_apps s → n ∈ Summary.apps_requested s)
  ∧ 0 ≤ Summary.failures s
  ∧ (Summary.exit_code s = 0 ∨ Summary.exit_code s = 1
     ∨ Summary.exit_code s = 2)
  ∧ (Summary.exit_code s = 0 → Summary.failures s = 0).
Proof.
  destruct (main_ending w args) as [[msg ->]|[[e ->]|(p & Hres & H)]];
    [done|done|].
  destruct H as [Hbad|client listing _ _ _ _ _|client listing _ _ _ _ Hnil
                |client listing target_apps c log _ _ _ _ -> _ Hloop];
    simpl; intros [= <-]; simpl.
  - split_and!; try lia. intros n Hn. by apply elem_of_nil in Hn.
  - pose proof (found_missing_length listing (plan_app_names p)).
    split_and!; try lia. apply missing_names_requested.
  - pose proof (found_missing_length listing (plan_app_names p)).
    destruct (Args.ignore_missing_apps args);
      (split_and!; try lia; apply missing_names_requested).
  - apply reconcile_loop_facts in Hloop as (Hnames & _ & Hfail & Hupd).
    pose proof (found_missing_length listing (plan_app_names p)) as Hsum.
    unfold found_names in Hsum. rewrite <- omap_length_found in Hsum.
    pose proof (pending_length (plan_action p)
                  (omap (λ n, by_name_of listing !! n) (plan_app_names p)))
      as Hpend.
    pose proof (raised_calls_bounds log) as Hraised.
    assert (Hlog : (length log
                    ≤ length (pending (plan_action p)
                               (omap (λ n, by_name_of listing !! n)
                                  (plan_app_names p))))%nat).
    { rewrite <- (length_fmap call_app log), Hnames.
      destruct (Args.dry_run args); simpl; [lia|]. by rewrite length_fmap. }
    destruct (decide (failures c = 0)) as [Hz|Hnz].
    + rewrite (bool_decide_eq_false_2 (failures c ≠ 0))
        by (intros Hn; by apply Hn).
      split_and!; try lia. apply missing_names_requested.
    + rewrite (bool_decide_eq_true_2 _ Hnz).
      split_and!; try lia. apply missing_names_requested.
Qed.

Lemma main_summary_bounds_witness :
  ∃ s, summary three_apps_run = Some s
       ∧ 0 ≤ Summary.apps_changed s ≤ Summary.apps_evaluated s
       ∧ Summary.apps_evaluated s + Z.of_nat (length (Summary.missing_apps s))
         ≤ Z.of_nat (length (Summary.apps_requested s))
       ∧ 0 ≤ Summary.failures s.
Proof.
  destruct (summary three_apps_run) as [s|] eqn:E; [|by vm_compute in E].
  exists s. split; [done|].
  destruct (main_summary_bounds three_apps_world
              (forced_start_args "app-a,app-b,app-c" false) s E)
    as (H1 & H2 & _ & H3 & _).
  exact (conj H1 (conj H2 H3)).
Defined.

(** ** The arguments of [main] *)

(** X24: with a forced action the text of [--active-days] plays no part:
    it is not even validated, and the run is the same whatever it holds. *)
Theorem main_forced_ignores_active_days (w : World) (args : Args.t)
    (a : Action) (text : string) :
  Args.action args = force a →
  main w (with_active_days text args) = main w args.
Proof.
  intros Hforce. unfold main, main_resolve. simpl. rewrite Hforce.
  destruct (_validate_hour (Args.start_hour args) "--start-hour"); [done|].
  destruct (_validate_hour (Args.end_hour args) "--end-hour"); [done|].
  destruct (parse_app_names (Args.app_names args)); [done|].
  destruct (ZoneInfo w (Args.timezone args)) as [[tz|]|e]; [|done|done].
  destruct (resolve_now _ _ _ tz) as [[now_local|msg]|e]; [|done|done].
  unfold main_reconcile, new_client. simpl.
  destruct (sdk_importable w); [|done]. simpl.
  destruct (WorkspaceClient w _) as [client|]; [|done].
  destruct (_select_target_apps client _) as [[targets missing]|]; [|done].
  destruct (bool_decide _ && _); [done|].
  destruct (bool_decide _); [done|].
  by destruct (reconcile_loop _ _ _ _ _ _).
Qed.

Lemma main_forced_ignores_active_days_witness :
  main one_app_world (with_active_days "never" (forced_start_args "app-a" true))
  = main one_app_world (forced_start_args "app-a" true).
Proof. by apply (main_forced_ignores_active_days _ _ start). Defined.

Lemma astimezone_Some_iff src c tz :
  is_Some (astimezone src c tz)
  ↔ in_range (utc_instant src c) = true
    ∧ in_range (fromutc tz (utc_instant src c)) = true.
Proof.
  unfold astimezone, utc_instant.
  destruct (in_range (wall c - utcoffset src (wall c))); simpl.
  - destruct (in_range _); split; try done;
      try (by intros [? ?]); by intros [_ ?].
  - split; [by intros [? ?]|by intros [? _]].
Qed.

Lemma resolve_now_Ok_iff (f : string → option datetime) clock now_raw tz :
  (∃ d, resolve_now f clock now_raw tz = Ok d)
  ↔ ∀ raw, now_raw = Some raw →
      ∃ c, f (normalize_now raw) = Some c ∧ convertible tz c.
Proof.
  unfold resolve_now, outcome_of_res. destruct now_raw as [raw|].
  - destruct (f (normalize_now raw)) as [c|] eqn:E.
    + destruct (tzinfo c) as [src|] eqn:Ec.
      * pose proof (astimezone_Some_iff src c tz) as Has.
        destruct (astimezone src c tz) as [d|].
        -- split; [|by eexists]. intros _ ? [= <-]. exists c. split; [done|].
           intros src' Hsrc. rewrite Ec in Hsrc. injection Hsrc as <-.
           apply Has. by eexists.
        -- split; [by intros [? ?]|]. intros H.
           destruct (H raw eq_refl) as (c' & Hc' & Hconv).
           rewrite E in Hc'. injection Hc' as <-.
           destruct (proj2 Has (Hconv src Ec)) as [? ?]. done.
      * split; [|by eexists]. intros _ ? [= <-]. exists c. split; [done|].
        intros src Hsrc. congruence.
    + split; [by intros [? ?]|]. intros H.
      destruct (H raw eq_refl) as (? & ? & _). congruence.
  - split; [done|]. intros _. by eexists.
Qed.

Lemma parse_app_names_nil_blank raw : parse_app_names raw = [] ↔ blank raw = true.
Proof.
  rewrite parse_app_names_first_occurrences, first_occurrences_nil.
  split; [apply csv_tokens_nil_chars|apply csv_tokens_blank].
Qed.

Lemma validate_hour_None value flag :
  _validate_hour value flag = None ↔ 0 ≤ value ≤ 23.
Proof.
  unfold _validate_hour.
  destruct (Z.leb_spec 0 value); destruct (Z.leb_spec value 23); simpl;
    split; try done; lia.
Qed.



(** X26: the usage errors come in a fixed order, each before any contact
    with the remote directory: a start hour outside 0..23, then an end hour
    outside 0..23, then names without any name, then an unknown zone,
    which the message quotes. *)
Theorem main_usage_errors_in_order (w : World) (args : Args.t) :
  (¬ 0 ≤ Args.start_hour args ≤ 23 →
     main w args = parser_error "--start-hour must be in the range 0..23.")
  ∧ (0 ≤ Args.start_hour args ≤ 23 → ¬ 0 ≤ Args.end_hour args ≤ 23 →
     main w args = parser_error "--end-hour must be in the range 0..23.")
  ∧ (0 ≤ Args.start_hour args ≤ 23 → 0 ≤ Args.end_hour args ≤ 23 →
     blank (Args.app_names args) = true →
     main w args
     = parser_error "--app-names must include at least one app name.")
  ∧ (0 ≤ Args.start_hour args ≤ 23 → 0 ≤ Args.end_hour args ≤ 23 →
     blank (Args.app_names args) = false →
     ZoneInfo w (Args.timezone args) = None →
     main w args
     = parser_error ("Unknown timezone '" ++ Args.timezone args ++ "'.")%string)
  ∧ ∀ msg, calls (parser_error msg) = [] ∧ stdout (parser_error msg) = [].
Proof.
  split_and!; [| | | |done].
  - intros Hstart. unfold main, main_resolve.
    destruct (_validate_hour (Args.start_hour args) "--start-hour") as [msg|] eqn:E.
    + unfold _validate_hour in E. by destruct (negb _); [injection E as <-|].
    + by apply validate_hour_None in E.
  - intros Hstart Hend. unfold main, main_resolve.
    rewrite (proj2 (validate_hour_None _ _) Hstart).
    destruct (_validate_hour (Args.end_hour args) "--end-hour") as [msg|] eqn:E.
    + unfold _validate_hour in E. by destruct (negb _); [injection E as <-|].
    + by apply validate_hour_None in E.
  - intros Hstart Hend Hnames%parse_app_names_nil_blank.
    unfold main, main_resolve.
    rewrite (proj2 (validate_hour_None _ _) Hstart).
    rewrite (proj2 (validate_hour_None _ _) Hend). by rewrite Hnames.
  - intros Hstart Hend Hnames Htz. unfold main, main_resolve.
    rewrite (proj2 (validate_hour_None _ _) Hstart).
    rewrite (proj2 (validate_hour_None _ _) Hend).
    destruct (parse_app_names (Args.app_names args)) as [|n names] eqn:En.
    { apply parse_app_names_nil_blank in En. congruence. }
    by rewrite Htz.
Qed.

Lemma main_usage_errors_in_order_witness :
  main one_app_world (window_args 24 (-1) "" "Mars/Olympus")
  = parser_error "--start-hour must be in the range 0..23."
  ∧ main one_app_world (window_args 8 (-1) "" "Mars/Olympus")
    = parser_error "--end-hour must be in the range 0..23."
  ∧ main one_app_world (window_args 8 17 " , " "Mars/Olympus")
    = parser_error "--app-names must include at least one app name."
  ∧ main one_app_world (window_args 8 17 "app-a" "Mars/Olympus")
    = parser_error "Unknown timezone 'Mars/Olympus'.".
Proof.
  split_and!.
  - apply (proj1 (main_usage_errors_in_order one_app_world
                    (window_args 24 (-1) "" "Mars/Olympus"))).
    simpl. lia.
  - apply (proj1 (proj2 (main_usage_errors_in_order one_app_world
                           (window_args 8 (-1) "" "Mars/Olympus"))));
      simpl; lia.
  - apply (proj1 (proj2 (proj2 (main_usage_errors_in_order one_app_world
                                  (window_args 8 17 " , " "Mars/Olympus")))));
      simpl; try lia. reflexivity.
  - apply (proj1 (proj2 (proj2 (proj2 (main_usage_errors_in_order one_app_world
                                         (window_args 8 17 "app-a" "Mars/Olympus"))))));
      simpl; try lia; reflexivity.
Defined.

(** ** Exit codes and the status of the process *)

(** X27: the process ends with status 2 exactly when the arguments are
    rejected with a usage error, or they are accepted and the remote
    directory cannot be reached (the SDK cannot be imported, the client
    cannot be constructed or the listing raises).  A run that an uncaught
    exception ends (the [ValueError] of [ZoneInfo], the [OverflowError] of
    [astimezone]) has status 1 whatever the remote directory, prints
    nothing on standard output and makes no call. *)
Theorem process_status_2_iff (w : World) (args : Args.t) :
  (process_status (main w args) = 2
   ↔ (∃ msg, main_resolve w args = inl msg)
     ∨ (∃ p, main_resolve w args = inr p ∧ unreachable w args))
  ∧ (∀ e, main_resolve w args = Uncaught e →
       process_status (main w args) = 1
       ∧ exit (main w args) = Traceback e
       ∧ stdout (main w args) = []
       ∧ calls (main w args) = []).
Proof.
  unfold process_status, main, outcome_of_sum.
  destruct (main_resolve w args) as [[msg|p]|e] eqn:Hres.
  - split; [|done]. split; [|done]. intros _. left. by exists msg.
  - split; [|done].
    destruct (main_reconcile_ending w args p)
      as [Hbad|client listing Hsdk Hc Hl _ _|client listing Hsdk Hc Hl _ _
         |client listing target_apps c log Hsdk Hc Hl _ _ _ _]; simpl.
    + split; [|done]. intros _. right. by exists p.
    + split; [done|].
      intros [[? ?]|(? & _ & [?|[[_ ?]|(_ & client' & ? & ?)]])];
        congruence.
    + split; [by destruct (Args.ignore_missing_apps args)|].
      intros [[? ?]|(? & _ & [?|[[_ ?]|(_ & client' & ? & ?)]])];
        congruence.
    + split; [by destruct (bool_decide (failures c ≠ 0))|].
      intros [[? ?]|(? & _ & [?|[[_ ?]|(_ & client' & ? & ?)]])];
        congruence.
  - split.
    + simpl. split; [done|]. intros [[? ?]|(? & ? & _)]; done.
    + intros e' [= <-]. done.
Qed.

Lemma process_status_2_iff_witness :
  process_status (main no_sdk_world (instant_args "UTC" "2026-02-08T10:00:00Z"))
    = 2
  ∧ process_status (main no_sdk_world (instant_args "" "2026-02-08T10:00:00Z"))
    = 1
  ∧ process_status
      (main no_sdk_world (instant_args "UTC" "0001-01-01T00:00:00+01:00"))
    = 1.
Proof.
  split_and!.
  - apply (proj1 (process_status_2_iff no_sdk_world
                    (instant_args "UTC" "2026-02-08T10:00:00Z"))).
    right. exists (forced_start_plan ["app-a"]).
    split; [by vm_compute|]. by left.
  - by apply (proj2 (process_status_2_iff no_sdk_world
                       (instant_args "" "2026-02-08T10:00:00Z"))
                InvalidZoneKey).
  - by apply (proj2 (process_status_2_iff no_sdk_world
                       (instant_args "UTC" "0001-01-01T00:00:00+01:00"))
                OverflowError).
Defined.

(** X28: when [main] returns 0, no transition call has raised, the report
    counts no failure, every requested name was found or missing names
    were to be ignored, and evaluated apps and missing names add up to the
    requested names. *)
Theorem main_success_means (w : World) (args : Args.t) :
  exit (main w args) = Returned 0 →
  Forall (λ k, call_raised k = false) (calls (main w args))
  ∧ ∃ s, summary (main w args) = Some s
         ∧ Summary.failures s = 0
         ∧ (Summary.missing_apps s = [] ∨ Args.ignore_missing_apps args = true)
         ∧ Summary.apps_evaluated s + Z.of_nat (length (Summary.missing_apps s))
           = Z.of_nat (length (Summary.apps_requested s)).
Proof.
  destruct (main_ending w args) as [[msg ->]|[[e ->]|(p & Hres & H)]];
    [done|done|].
  destruct H as [Hbad|client listing _ _ _ _ _|client listing _ _ _ Hor Hnil
                |client listing target_apps c log _ _ _ Hor -> _ Hloop];
    simpl; try done.
  - pose proof (found_missing_length listing (plan_app_names p)) as Hsum.
    rewrite Hnil in Hsum. simpl in Hsum.
    destruct (Args.ignore_missing_apps args) eqn:Hign; [|done]. intros _.
    split; [constructor|]. eexists. split; [reflexivity|]. simpl.
    split_and!; [done|by right|lia].
  - apply reconcile_loop_facts in Hloop as (_ & _ & Hfail & _).
    destruct (decide (failures c = 0)) as [Hz|Hnz];
      [|by rewrite (bool_decide_eq_true_2 _ Hnz)].
    intros _. split; [apply raised_calls_zero; congruence|].
    eexists. split; [reflexivity|]. simpl.
    pose proof (found_missing_length listing (plan_app_names p)) as Hsum.
    unfold found_names in Hsum. rewrite <- omap_length_found in Hsum.
    split_and!; [done|done|lia].
Qed.

Lemma main_success_means_witness :
  Forall (λ k, call_raised k = false) (calls active_app_run)
  ∧ ∃ s, summary active_app_run = Some s
         ∧ Summary.failures s = 0
         ∧ (Summary.missing_apps s = []
            ∨ Args.ignore_missing_apps (forced_start_args "app-a" false) = true)
         ∧ Summary.apps_evaluated s + Z.of_nat (length (Summary.missing_apps s))
           = Z.of_nat (length (Summary.apps_requested s)).
Proof. apply main_success_means. by vm_compute. Defined.

(** ** The defaults of the command line *)

(** X29: with every option but the names at its default, the instant is
    the current time in UTC, every weekday is active, and the decision is
    [start] exactly from 08:00 to 16:59 of that clock. *)
Theorem main_default_schedule (w : World) (names : string) (p : Plan) :
  main_resolve w (default_args names) = inr p →
  plan_active_days p = Some all_days
  ∧ (∃ tz, ZoneInfo w "UTC" = Some tz
           ∧ plan_now_local p = datetime_now (clock w) tz)
  ∧ (plan_action p = start ↔ 8 ≤ hour (plan_now_local p) < 17).
Proof.
  intros Hres.
  destruct (main_resolve_plan w _ p Hres)
    as (_ & _ & _ & _ & (tz & Htz & Hnow) & (days & Hdays & Hp & Haction)).
  simpl in *. injection Hdays as <-. injection Hnow as Hnow.
  split_and!; [done|by exists tz|].
  rewrite Haction. unfold resolve_action.
  rewrite decide_False.
  2:{ intros Hn. apply Hn, all_days_range.
      pose proof (weekday_range (plan_now_local p)). lia. }
  change (8 =? 17) with false. change (8 <? 17) with true. cbn iota.
  destruct (Z.leb_spec 8 (hour (plan_now_local p)));
    destruct (Z.ltb_spec (hour (plan_now_local p)) 17); simpl;
    split; try done; lia.
Qed.

Lemma main_default_schedule_witness :
  plan_active_days morning_plan = Some all_days
  ∧ (∃ tz, ZoneInfo morning_world "UTC" = Some tz
           ∧ plan_now_local morning_plan = datetime_now (clock morning_world) tz)
  ∧ (plan_action morning_plan = start
     ↔ 8 ≤ hour (plan_now_local morning_plan) < 17).
Proof.
  apply (main_default_schedule morning_world "app-a"). by vm_compute.
Defined.

Lemma raised_calls_nonzero log :
  raised_calls log ≠ 0 → ∃ k, k ∈ log ∧ call_raised k = true.
Proof.
  unfold raised_calls. induction log as [|k log IH]; [done|]. simpl.
  destruct (call_raised k) eqn:E.
  - intros _. exists k. split; [by left|done].
  - intros (k' & Hk' & Hr)%IH. exists k'. split; [by right|done].
Qed.

(** X30: with [--ignore-missing-apps], [main] returns 1 only when a
    transition call has raised: missing names alone never make the run
    fail. *)
Theorem main_ignore_missing_exit_1 (w : World) (args : Args.t) :
  Args.ignore_missing_apps args = true →
  exit (main w args) = Returned 1 →
  ∃ k, k ∈ calls (main w args) ∧ call_raised k = true.
Proof.
  intros Hign.
  destruct (main_ending w args) as [[msg ->]|[[e ->]|(p & Hres & H)]];
    [done|done|].
  destruct H as [Hbad|client listing _ _ _ _ Hi|client listing _ _ _ _ _
                |client listing target_apps c log _ _ _ _ _ _ Hloop];
    simpl; try done; try congruence.
  - by rewrite Hign.
  - apply reconcile_loop_facts in Hloop as (_ & _ & Hfail & _).
    destruct (decide (failures c = 0)) as [Hz|Hnz].
    + by rewrite (bool_decide_eq_false_2 (failures c ≠ 0))
        by (intros Hn; by apply Hn).
    + intros _. apply raised_calls_nonzero. congruence.
Qed.

Lemma main_ignore_missing_exit_1_witness :
  ∃ k, k ∈ calls (main three_apps_world (ignoring_args "app-a,app-x"))
       ∧ call_raised k = true.
Proof.
  apply main_ignore_missing_exit_1; by vm_compute.
Defined.
